(** * Technical-analysis indicators of the report generator (src/ta.py)

    A shallow embedding of [ema], [macd], [support_resistance] and
    [trend_direction] together with the pandas / numpy primitives they call.

    Numeric idealisation: a float64 is an exact rational ([Q]); the one
    special value the code tests for, NaN (a missing entry), is [None].
    Equality of computed numbers is therefore [Qeq] ([==]); values that the
    code merely selects (minimum, maximum, a carried-forward average) are
    equal on the nose.  A [pd.Series] is modelled by its values in index
    order: every series the module combines is derived from the same input
    and so carries the same index.

    The least-squares solve of [np.polyfit] is not idealised: its float64
    result decides a label against a tolerance, so the fit is a parameter
    [polyfit] of [trend_direction], and what depends on its accuracy is
    stated against the distance [fit_error] between the slope it returns and
    the exact least-squares slope [least_squares_line]. *)

From Stdlib Require Import String Bool ZArith QArith Qminmax Lqa Lia Psatz List.
From Stdlib Require Import Sorted Qabs.
Import ListNotations.
Local Open Scope Q_scope.

(** ** Values, series, exceptions *)

Definition Series := list (option Q).

Inductive exn : Type :=
| ValueError (msg : string).

Inductive result (A : Type) : Type :=
| Ok (a : A)
| Raise (e : exn).
Arguments Ok {A} a.
Arguments Raise {A} e.

Definition bind {A B : Type} (r : result A) (k : A -> result B) : result B :=
  match r with
  | Ok a => k a
  | Raise e => Raise e
  end.

Notation "x <- r ;; k" := (bind r (fun x => k))
  (at level 61, r at next level, right associativity).

(** Float comparisons [a > b] and [a < b]. *)
Definition fgt (a b : Q) : bool := negb (Qle_bool a b).
Definition flt (a b : Q) : bool := negb (Qle_bool b a).

(** ** The pandas primitives used by ta.py *)

Module pd.

(** [Series.empty] *)
Definition empty (s : Series) : bool :=
  match s with
  | [] => true
  | _ :: _ => false
  end.

(** [Series.tail(n)]: [iloc[0:0]] when [n == 0], otherwise [iloc[-n:]];
    a negative [n] therefore drops the first [-n] entries. *)
Definition tail {A : Type} (n : Z) (s : list A) : list A :=
  if (n =? 0)%Z then []
  else if (0 <? n)%Z then skipn (length s - Z.to_nat n) s
  else skipn (Z.to_nat (- n)) s.

(** [Series.dropna()]: the valid entries, in order.  The result holds no
    NaN, which its type records. *)
Fixpoint dropna (s : Series) : list Q :=
  match s with
  | [] => []
  | Some v :: s' => v :: dropna s'
  | None :: s' => dropna s'
  end.

(** [min()] and [max()] of a series without missing entries; they are only
    called on a non-empty one, whose first entry seeds the scan. *)
Definition min (v : Q) (vs : list Q) : Q := fold_left Qmin vs v.
Definition max (v : Q) (vs : list Q) : Q := fold_left Qmax vs v.

(** Float subtraction: NaN propagates. *)
Definition fsub (a b : option Q) : option Q :=
  match a, b with
  | Some x, Some y => Some (x - y)
  | _, _ => None
  end.

(** [a - b] on two series with the same index: pointwise. *)
Fixpoint sub (a b : Series) : Series :=
  match a, b with
  | x :: a', y :: b' => fsub x y :: sub a' b'
  | _, _ => []
  end.

(** [get_center_of_mass(comass=None, span, halflife=None, alpha=None)] *)
Definition get_center_of_mass (span : Z) : result Q :=
  if (span <? 1)%Z then Raise (ValueError "span must satisfy: span >= 1")
  else Ok ((inject_Z span - 1) / 2).

(** The loop state of [window.aggregations.ewm]. *)
Record ewm_state : Type := mk_ewm_state {
  weighted : option Q;
  old_wt : Q;
  nobs : nat
}.

Definition is_observation (cur : option Q) : bool :=
  match cur with
  | Some _ => true
  | None => false
  end.

(** One iteration of the loop, with [adjust = False], [ignore_na = False]
    and [normalize = True], the settings [ewm(span=..., adjust=False).mean()]
    runs with: [new_wt = alpha], [old_wt_factor = 1 - alpha]. *)
Definition ewm_step (alpha : Q) (st : ewm_state) (cur : option Q) : ewm_state :=
  let nobs' := (nobs st + (if is_observation cur then 1 else 0))%nat in
  match weighted st with
  | Some w =>
      let ow := old_wt st * (1 - alpha) in
      match cur with
      | Some c =>
          (* avoid numerical errors on constant series *)
          let w' := if Qeq_bool w c then w
                    else (ow * w + alpha * c) / (ow + alpha) in
          mk_ewm_state (Some w') 1 nobs'
      | None => mk_ewm_state (Some w) ow nobs'
      end
  | None =>
      match cur with
      | Some c => mk_ewm_state (Some c) (old_wt st) nobs'
      | None => mk_ewm_state None (old_wt st) nobs'
      end
  end.

(** [output[i] = weighted if nobs >= minp else NaN] *)
Definition ewm_output (minp : nat) (st : ewm_state) : option Q :=
  if (minp <=? nobs st)%nat then weighted st else None.

Fixpoint ewm_loop (alpha : Q) (minp : nat) (st : ewm_state) (vals : Series)
  : Series :=
  match vals with
  | [] => []
  | cur :: vals' =>
      let st' := ewm_step alpha st cur in
      ewm_output minp st' :: ewm_loop alpha minp st' vals'
  end.

Definition ewm (vals : Series) (minp : nat) (com : Q) : Series :=
  match vals with
  | [] => []
  | v0 :: vals' =>
      let alpha := 1 / (1 + com) in
      let st := mk_ewm_state v0 1 (if is_observation v0 then 1 else 0) in
      ewm_output minp st :: ewm_loop alpha minp st vals'
  end.

(** [series.ewm(span=span, adjust=False).mean()]; [min_periods] defaults to
    0, which the constructor raises to 1. *)
Definition ewm_mean (s : Series) (span : Z) : result Series :=
  com <- get_center_of_mass span ;;
  Ok (ewm s (Nat.max 0 1) com).

End pd.

(** ** The numpy primitives used by ta.py *)

Module np.

Definition sum (l : list Q) : Q := fold_right Qplus 0 l.

(** [np.arange(k)] *)
Definition arange (k : nat) : list Q :=
  map (fun i => inject_Z (Z.of_nat i)) (seq 0 k).

Definition mul (a b : list Q) : list Q :=
  map (fun p => fst p * snd p) (combine a b).

End np.

(** The least-squares line through the points [(x_i, y_i)] in exact
    arithmetic, slope first: the solution of the normal equations.  It is
    what [np.polyfit(x, y, 1)] approximates in float64; the code never
    computes it. *)
Definition least_squares_line (x y : list Q) : Q * Q :=
  let n := inject_Z (Z.of_nat (length x)) in
  let sx := np.sum x in
  let sy := np.sum y in
  let sxx := np.sum (np.mul x x) in
  let sxy := np.sum (np.mul x y) in
  let slope := (n * sxy - sx * sy) / (n * sxx - sx * sx) in
  (slope, (sy - slope * sx) / n).

(** ** src/ta.py *)

(** A Python argument that may be [None]. *)
Definition absent_or_empty (series : option Series) : bool :=
  match series with
  | None => true
  | Some s => pd.empty s
  end.

Definition values (series : option Series) : Series :=
  match series with
  | None => []
  | Some s => s
  end.

Definition ema (series : option Series) (span : Z) : result Series :=
  if absent_or_empty series then Ok []
  else pd.ewm_mean (values series) span.

Definition macd (series : option Series) (fast slow signal : Z)
  : result (Series * Series * Series) :=
  if absent_or_empty series then Ok ([], [], [])
  else
    e_fast <- ema series fast ;;
    e_slow <- ema series slow ;;
    let macd_line := pd.sub e_fast e_slow in
    signal_line <- ema (Some macd_line) signal ;;
    let hist := pd.sub macd_line signal_line in
    Ok (macd_line, signal_line, hist).

Definition support_resistance (series : option Series) (window : Z) : Q * Q :=
  if absent_or_empty series then (0, 0)
  else
    match pd.dropna (pd.tail window (values series)) with
    | [] => (0, 0)
    | v :: vs => (pd.min v vs, pd.max v vs)
    end.

(** What [np.polyfit(x, y, 1)] is to this file: a function from the two
    coordinate lists to the two coefficients, highest power first. *)
Definition fit_function : Type := list Q -> list Q -> Q * Q.

Section Fit.

(** [np.polyfit(x, y, 1)]: the two coefficients, highest power first, that
    numpy's float64 least-squares solve returns.  Its rounding is outside the
    embedding, so the fit is a parameter. *)
Variable polyfit : fit_function.

Definition trend_direction (series : option Series) (window : Z) (tol : Q)
  : string * Q :=
  if absent_or_empty series then ("Sideways"%string, 0)
  else
    let y := pd.dropna (pd.tail window (values series)) in
    if (length y <? 2)%nat then ("Sideways"%string, 0)
    else
      let x := np.arange (length y) in
      let slope := fst (polyfit x y) in
      if fgt slope tol then ("Up"%string, slope)
      else if flt slope (- tol) then ("Down"%string, slope)
      else ("Sideways"%string, slope).

End Fit.

(** Default arguments of the source. *)
Definition default_fast : Z := 12.
Definition default_slow : Z := 26.
Definition default_signal : Z := 9.
Definition default_sr_window : Z := 20.
Definition default_trend_window : Z := 10.
Definition default_tol : Q := 1 # 1000000.

(** ** Reference definitions used to state the properties *)

(** The valid entries found at the raw positions [lo, lo + n) of a series. *)
Definition valid_between (s : Series) (lo n : nat) : list Q :=
  flat_map (fun i => match nth_error s i with
                     | Some (Some v) => [v]
                     | _ => []
                     end) (seq lo n).

(** The selection the specification's invariant words: the last [window]
    valid entries, the missing ones being dropped before the window is cut. *)
Definition trailing_valid (window : Z) (s : Series) : list Q :=
  pd.tail window (pd.dropna s).

(** Support and resistance of a selection of valid points. *)
Definition levels_of (y : list Q) : Q * Q :=
  match y with
  | [] => (0, 0)
  | v :: vs => (pd.min v vs, pd.max v vs)
  end.

(** Label by slope and tolerance. *)
Definition classify (slope tol : Q) : string :=
  if fgt slope tol then "Up"%string
  else if flt slope (- tol) then "Down"%string
  else "Sideways"%string.

(** Trend of a selection of valid points, for a given fit. *)
Definition trend_of (polyfit : fit_function) (y : list Q) (tol : Q)
  : string * Q :=
  if (length y <? 2)%nat then ("Sideways"%string, 0)
  else
    let slope := fst (polyfit (np.arange (length y)) y) in
    (classify slope tol, slope).

(** How far the slope a fit returns for the points [(i, y_i)],
    [i = 0 .. k-1], is from their exact least-squares slope. *)
Definition fit_error (polyfit : fit_function) (y : list Q) : Q :=
  Qabs (fst (polyfit (np.arange (length y)) y)
        - fst (least_squares_line (np.arange (length y)) y)).

(** A fit that returns the slope [b] (and the first value as intercept):
    used to replay a slope a float64 solve returned. *)
Definition fit_with_slope (b : Q) : fit_function := fun _ y => (b, hd 0 y).

(** A series without missing entries. *)
Definition all_valid (xs : list Q) : Series := map Some xs.

(** The smoothing factor the specification names: 2 / (span + 1). *)
Definition smoothing (span : Z) : Q := 2 / (inject_Z span + 1).

(** Float arithmetic and float equality on entries that may be NaN: NaN
    propagates through [+] and [*] and is equal to nothing. *)
Definition fadd (a b : option Q) : option Q :=
  match a, b with
  | Some x, Some y => Some (x + y)
  | _, _ => None
  end.

Definition fmul (a b : option Q) : option Q :=
  match a, b with
  | Some x, Some y => Some (x * y)
  | _, _ => None
  end.

Definition feq (a b : option Q) : Prop :=
  match a, b with
  | Some x, Some y => x == y
  | _, _ => False
  end.

(** The non-bias-adjusted recursion: [output] has the length of [input],
    starts at the first input and then follows
    [output[i] = input[i]*alpha + output[i-1]*(1-alpha)]. *)
Definition ema_recursion (input output : Series) (alpha : Q) : Prop :=
  length output = length input /\
  feq (nth 0 output None) (nth 0 input None) /\
  forall i : nat, (0 < i < length input)%nat ->
    feq (nth i output None)
        (fadd (fmul (nth i input None) (Some alpha))
              (fmul (nth (i - 1) output None) (Some (1 - alpha)))).

(** Two entries agree: the same number, or both missing. *)
Definition same_entry (a b : option Q) : Prop :=
  match a, b with
  | Some x, Some y => x == y
  | None, None => True
  | _, _ => False
  end.

(** An entry that is a number equal to zero. *)
Definition zero_entry (a : option Q) : Prop :=
  match a with
  | Some x => x == 0
  | None => False
  end.



(** The positions [lo, lo + 1, ..., lo + k - 1] as numbers;
    [np.arange k] is [positions 0 k]. *)
Definition positions (lo k : nat) : list Q :=
  map (fun i => inject_Z (Z.of_nat i)) (seq lo k).

(** The values [base + step * i] for [i = lo, ..., lo + k - 1]. *)
Definition line_values (base step : Q) (lo k : nat) : list Q :=
  map (fun i => base + step * inject_Z (Z.of_nat i)) (seq lo k).

(** A linear series [base + step * i], [i = 0 .. n-1], without missing
    entries. *)
Definition linear_series (base step : Q) (n : nat) : Series :=
  all_valid (line_values base step 0 n).

(** The eleven-point series of the end-to-end example. *)
Definition example_series : Series :=
  all_valid [10; 11; 12; 13; 14; 15; 16; 17; 18; 19; 20].

(** A series with a missing last entry, and one with a gap. *)
Definition series_missing_last : Series := [Some 1; Some 2; None].
Definition series_with_gap : Series := [Some 4; None; Some 8].

(** The pointwise image [k * v + d] of a series; a missing entry stays
    missing. *)
Definition affine_entry (k d : Q) (a : option Q) : option Q :=
  match a with
  | Some x => Some (k * x + d)
  | None => None
  end.

Definition affine_series (k d : Q) (s : Series) : Series :=
  map (affine_entry k d) s.

(** [b] is [k * a + d] as a number, or both entries are missing. *)
Definition affine_rel (k d : Q) (a b : option Q) : Prop :=
  match a, b with
  | Some x, Some y => y == k * x + d
  | None, None => True
  | _, _ => False
  end.

(** ** src/fetchers.py and src/main.py: the numeric helpers around ta.py *)

(** A Python value that is [None] or a float (a NaN float being [None]
    inside). *)
Inductive pyvalue : Type :=
| PyNone
| PyFloat (x : option Q).

(** Float division, NaN propagating; the callers guard the zero divisor. *)
Definition fdiv (a b : option Q) : option Q :=
  match a, b with
  | Some x, Some y => Some (x / y)
  | _, _ => None
  end.

(** Python truthiness of a value: [None] and [0.0] are false, every other
    float (NaN included) is true. *)
Definition truthy (v : pyvalue) : bool :=
  match v with
  | PyNone => false
  | PyFloat (Some x) => negb (Qeq_bool x 0)
  | PyFloat None => true
  end.

Module fetchers.

(** [b == 0] on a value. *)
Definition is_zero (b : pyvalue) : bool :=
  match b with
  | PyFloat (Some y) => Qeq_bool y 0
  | _ => false
  end.

(** [_pct(a, b)]: the arithmetic on a [None] operand raises TypeError, which
    the handler turns into [None]. *)
Definition _pct (a b : pyvalue) : pyvalue :=
  if is_zero b then PyNone
  else
    match b with
    | PyNone => PyNone
    | PyFloat fb =>
        match a with
        | PyNone => PyNone
        | PyFloat fa => PyFloat (fmul (fdiv (pd.fsub fa fb) fb) (Some 100))
        end
    end.

(** The entry [get_snapshots] stores for one ticker, from the floats read
    off the downloaded frame. *)
Definition snapshot_entry (open_price close_price prev_close : option Q)
  : list (string * pyvalue) :=
  [ ("Open"%string, PyFloat open_price);
    ("Close"%string, PyFloat close_price);
    ("Change%"%string, _pct (PyFloat close_price) (PyFloat prev_close));
    ("LTP"%string, PyFloat close_price) ].

End fetchers.

Module main.

(** [dict.get(key)] on a dict kept as its list of items: [None] when the key
    is absent. *)
Fixpoint get (v : list (string * pyvalue)) (key : string) : pyvalue :=
  match v with
  | [] => PyNone
  | (k, x) :: v' => if String.eqb k key then x else get v' key
  end.

(** What reaches the handler of [build] from the technical-analysis block. *)
Inductive error : Type :=
| TaError (e : exn)
| IndexError (msg : string).

Inductive outcome (A : Type) : Type :=
| Done (a : A)
| Failed (e : error).
Arguments Done {A} a.
Arguments Failed {A} e.

Definition lift {A : Type} (r : result A) : outcome A :=
  match r with
  | Ok a => Done a
  | Raise e => Failed (TaError e)
  end.

Definition and_then {A B : Type} (r : outcome A) (k : A -> outcome B)
  : outcome B :=
  match r with
  | Done a => k a
  | Failed e => Failed e
  end.

(** [series.iloc[-1]] *)
Definition iloc_last (s : Series) : outcome (option Q) :=
  match s with
  | [] => Failed (IndexError "single positional indexer is out-of-bounds")
  | _ :: _ => Done (last s None)
  end.

(** [a > b] on floats: false as soon as one is NaN. *)
Definition float_gt (a b : option Q) : bool :=
  match a, b with
  | Some x, Some y => fgt x y
  | _, _ => false
  end.

Section Formatting.

(** Python's [format(x, ".2f")] and [format(x, ".4f")] on a float. *)
Variable fmt2 : option Q -> string.
Variable fmt4 : option Q -> string.

(** [np.polyfit(x, y, 1)], as for [trend_direction]. *)
Variable polyfit : fit_function.

(** One cell of [dict_to_rows]: the formatted value if it is truthy,
    a dash otherwise. *)
Definition cell (v : list (string * pyvalue)) (key suffix : string) : string :=
  if truthy (get v key) then
    match get v key with
    | PyFloat x => (fmt2 x ++ suffix)%string
    | PyNone => "-"%string
    end
  else "-"%string.

Definition dict_to_rows (dct : list (string * list (string * pyvalue)))
    (first_col : string) : list (list string) :=
  [first_col; "Open"; "Close"; "Change %"; "LTP"]%string
  :: map (fun kv =>
            [ fst kv;
              cell (snd kv) "Open" "";
              cell (snd kv) "Close" "";
              cell (snd kv) "Change%" "%";
              cell (snd kv) "LTP" "" ]%string) dct.

(** The body of the technical-analysis loop of [build] for one history,
    given as its Close column (a frame that has the column is empty exactly
    when the column is): [None] when the iteration is skipped. *)
Definition ta_section (close : Series)
  : outcome (option (list (string * string))) :=
  if pd.empty close then Done None
  else
    let closes := all_valid (pd.dropna close) in
    if pd.empty closes then Done None
    else
      and_then (lift (ema (Some closes) 9)) (fun ema9 =>
      and_then (lift (ema (Some closes) 15)) (fun ema15 =>
      and_then (lift (macd (Some closes) default_fast default_slow
                        default_signal)) (fun lines =>
      let macd_line := fst (fst lines) in
      let signal_line := snd (fst lines) in
      let histo := snd lines in
      let supp := fst (support_resistance (Some closes) 20) in
      let resist := snd (support_resistance (Some closes) 20) in
      let trend := fst (trend_direction polyfit (Some closes) 10 default_tol) in
      let slope := snd (trend_direction polyfit (Some closes) 10 default_tol) in
      and_then (iloc_last ema9) (fun e9 =>
      and_then (iloc_last ema15) (fun e15 =>
      and_then (iloc_last macd_line) (fun m =>
      and_then (iloc_last signal_line) (fun g =>
      and_then (iloc_last histo) (fun h =>
      Done (Some
        [ ("Support (20d min)", fmt2 (Some supp));
          ("Resistance (20d max)", fmt2 (Some resist));
          ("Trendline Direction",
           trend ++ " (slope " ++ fmt4 (Some slope) ++ ")");
          ("EMA(9) vs EMA(15)", fmt2 e9 ++ " vs " ++ fmt2 e15);
          ("MACD (last)", fmt2 m);
          ("Signal (last)", fmt2 g);
          ("Histogram (last)", fmt2 h);
          ("Interpretation",
           if float_gt m g then "Bullish" else "Bearish") ]%string))))))))).

(** The loop over the histories: a skipped one adds nothing, a failure ends
    the loop. *)
Fixpoint ta_sections (hists : list (string * Series))
  : outcome (list (string * list (string * string))) :=
  match hists with
  | [] => Done []
  | (name, close) :: hists' =>
      and_then (ta_section close) (fun section =>
      and_then (ta_sections hists') (fun sections =>
      match section with
      | Some metrics => Done ((name, metrics) :: sections)
      | None => Done sections
      end))
  end.

End Formatting.

End main.

(** ** Windows: [tail] and [dropna] *)

Section Windows.

Lemma tail_positive {A : Type} (n : Z) (s : list A) :
  (0 < n)%Z -> pd.tail n s = skipn (length s - Z.to_nat n) s.
Proof.
  intros Hn. unfold pd.tail.
  destruct (Z.eqb_spec n 0) as [E | _]; [lia |].
  destruct (Z.ltb_spec 0 n) as [_ | L]; [reflexivity | lia].
Qed.

Lemma tail_nil {A : Type} (n : Z) : pd.tail n (@nil A) = [].
Proof.
  unfold pd.tail.
  destruct (n =? 0)%Z; [reflexivity |].
  destruct (0 <? n)%Z; now rewrite skipn_nil.
Qed.

Lemma dropna_app (a b : Series) :
  pd.dropna (a ++ b) = pd.dropna a ++ pd.dropna b.
Proof.
  induction a as [| [v |] a IH]; simpl; [reflexivity | now rewrite IH | exact IH].
Qed.

Lemma dropna_missing (s : Series) :
  Forall (fun v => v = None) s -> pd.dropna s = [].
Proof.
  induction 1 as [| v s Hv _ IH]; [reflexivity |].
  subst v. exact IH.
Qed.

Lemma dropna_all_valid (xs : list Q) : pd.dropna (all_valid xs) = xs.
Proof.
  induction xs as [| x xs IH]; simpl; [reflexivity | now rewrite IH].
Qed.

Lemma valid_between_shift (a : option Q) (s : Series) (lo n : nat) :
  valid_between (a :: s) (S lo) n = valid_between s lo n.
Proof.
  unfold valid_between. revert lo.
  induction n as [| n IH]; intros lo; simpl; [reflexivity |].
  now rewrite IH.
Qed.

Lemma dropna_valid_between (s : Series) :
  pd.dropna s = valid_between s 0 (length s).
Proof.
  induction s as [| a s IH]; [reflexivity |].
  change (valid_between (a :: s) 0 (length (a :: s)))
    with (match a with Some v => [v] | None => [] end
          ++ valid_between (a :: s) 1 (length s)).
  rewrite valid_between_shift, <- IH.
  destruct a; reflexivity.
Qed.

Lemma dropna_skipn (s : Series) (k : nat) :
  pd.dropna (skipn k s) = valid_between s k (length s - k).
Proof.
  revert k. induction s as [| a s IH]; intros k.
  - rewrite skipn_nil. reflexivity.
  - destruct k as [| k].
    + apply dropna_valid_between.
    + simpl skipn. rewrite valid_between_shift. apply IH.
Qed.

(** What the source selects: the valid entries among the last [window] raw
    positions. *)
Lemma selection_positions (s : Series) (window : Z) :
  (0 < window)%Z ->
  pd.dropna (pd.tail window s)
  = valid_between s (length s - Z.to_nat window)
      (Nat.min (Z.to_nat window) (length s)).
Proof.
  intros Hw. rewrite tail_positive by exact Hw.
  rewrite dropna_skipn. f_equal. lia.
Qed.

End Windows.

(** ** Minimum and maximum *)

Section Extrema.

Lemma min_le_seed (vs : list Q) (v : Q) : pd.min v vs <= v.
Proof.
  unfold pd.min. revert v.
  induction vs as [| a vs IH]; intros v; simpl.
  - apply Qle_refl.
  - eapply Qle_trans; [apply IH | apply Q.le_min_l].
Qed.

Lemma max_ge_seed (vs : list Q) (v : Q) : v <= pd.max v vs.
Proof.
  unfold pd.max. revert v.
  induction vs as [| a vs IH]; intros v; simpl.
  - apply Qle_refl.
  - eapply Qle_trans; [apply Q.le_max_l | apply IH].
Qed.

Lemma min_lower_bound (vs : list Q) (v u : Q) :
  In u (v :: vs) -> pd.min v vs <= u.
Proof.
  unfold pd.min. revert v.
  induction vs as [| a vs IH]; intros v [E | H]; simpl.
  - subst u. apply Qle_refl.
  - destruct H.
  - subst u. eapply Qle_trans; [apply (min_le_seed vs) | apply Q.le_min_l].
  - destruct H as [E | H].
    + subst u. eapply Qle_trans; [apply (min_le_seed vs) | apply Q.le_min_r].
    + apply IH. now right.
Qed.

Lemma max_upper_bound (vs : list Q) (v u : Q) :
  In u (v :: vs) -> u <= pd.max v vs.
Proof.
  unfold pd.max. revert v.
  induction vs as [| a vs IH]; intros v [E | H]; simpl.
  - subst u. apply Qle_refl.
  - destruct H.
  - subst u. eapply Qle_trans; [apply Q.le_max_l | apply (max_ge_seed vs)].
  - destruct H as [E | H].
    + subst u. eapply Qle_trans; [apply Q.le_max_r | apply (max_ge_seed vs)].
    + apply IH. now right.
Qed.

Lemma Qmin_selects (a b : Q) : Qmin a b = a \/ Qmin a b = b.
Proof.
  unfold Qmin, GenericMinMax.gmin. destruct (a ?= b); auto.
Qed.

Lemma Qmax_selects (a b : Q) : Qmax a b = a \/ Qmax a b = b.
Proof.
  unfold Qmax, GenericMinMax.gmax. destruct (a ?= b); auto.
Qed.

Lemma min_attained (vs : list Q) (v : Q) : In (pd.min v vs) (v :: vs).
Proof.
  unfold pd.min. revert v.
  induction vs as [| a vs IH]; intros v; simpl; [now left |].
  destruct (IH (Qmin v a)) as [E | H]; [| auto].
  rewrite <- E.
  destruct (Qmin_selects v a) as [M | M]; rewrite M; auto.
Qed.

Lemma max_attained (vs : list Q) (v : Q) : In (pd.max v vs) (v :: vs).
Proof.
  unfold pd.max. revert v.
  induction vs as [| a vs IH]; intros v; simpl; [now left |].
  destruct (IH (Qmax v a)) as [E | H]; [| auto].
  rewrite <- E.
  destruct (Qmax_selects v a) as [M | M]; rewrite M; auto.
Qed.

End Extrema.

(** ** Exponentially weighted mean *)

Section Ewm.

Lemma ewm_loop_length (alpha : Q) (minp : nat) (vals : Series) :
  forall st, length (pd.ewm_loop alpha minp st vals) = length vals.
Proof.
  induction vals as [| cur vals IH]; intros st; simpl; [reflexivity |].
  now rewrite IH.
Qed.

Lemma ewm_length (vals : Series) (minp : nat) (com : Q) :
  length (pd.ewm vals minp com) = length vals.
Proof.
  destruct vals as [| v0 vals]; simpl; [reflexivity |].
  now rewrite ewm_loop_length.
Qed.

Lemma ewm_mean_ok (s : Series) (span : Z) :
  (1 <= span)%Z ->
  pd.ewm_mean s span = Ok (pd.ewm s 1 ((inject_Z span - 1) / 2)).
Proof.
  intros Hs. unfold pd.ewm_mean, pd.get_center_of_mass.
  destruct (Z.ltb_spec span 1) as [L | _]; [lia | reflexivity].
Qed.

Lemma ema_ok (s : Series) (span : Z) :
  (1 <= span)%Z ->
  exists out, ema (Some s) span = Ok out /\ length out = length s.
Proof.
  intros Hs. unfold ema. destruct s as [| v s].
  - exists []. split; reflexivity.
  - cbn [absent_or_empty pd.empty values].
    rewrite ewm_mean_ok by exact Hs.
    eexists. split; [reflexivity | apply ewm_length].
Qed.

Lemma alpha_of_span (span : Z) :
  (1 <= span)%Z ->
  1 / (1 + (inject_Z span - 1) / 2) == smoothing span.
Proof.
  intros Hs. unfold smoothing.
  assert (H : 0 < inject_Z span + 1).
  { assert (inject_Z 1 <= inject_Z span) by (rewrite <- Zle_Qle; lia).
    change (inject_Z 1) with 1 in *. lra. }
  field. lra.
Qed.

(** One step on two numbers is the recursion of the smoothed average. *)
Lemma ewm_step_valid (alpha w c : Q) (n : nat) :
  exists w',
    pd.ewm_step alpha (pd.mk_ewm_state (Some w) 1 n) (Some c)
    = pd.mk_ewm_state (Some w') 1 (n + 1)
    /\ w' == c * alpha + w * (1 - alpha).
Proof.
  unfold pd.ewm_step. cbn [pd.weighted pd.old_wt pd.nobs pd.is_observation].
  destruct (Qeq_bool w c) eqn:E.
  - exists w. split; [reflexivity |].
    apply Qeq_bool_iff in E. rewrite E. ring.
  - eexists. split; [reflexivity |].
    field. intros H. ring_simplify in H. discriminate H.
Qed.

Lemma all_valid_length (xs : list Q) : length (all_valid xs) = length xs.
Proof. apply length_map. Qed.

Lemma nth_all_valid (xs : list Q) (i : nat) :
  (i < length xs)%nat -> nth i (all_valid xs) None = Some (nth i xs 0).
Proof.
  revert i. induction xs as [| x xs IH]; intros i Hi; simpl in *; [lia |].
  destruct i as [| i]; [reflexivity | apply IH; lia].
Qed.

(** On numbers only, the loop produces numbers only, each obtained from the
    previous average by the recursion. *)
Lemma ewm_loop_valid (alpha : Q) (xs : list Q) :
  forall (w : Q) (n : nat),
  exists o : list Q,
    pd.ewm_loop alpha 1 (pd.mk_ewm_state (Some w) 1 (S n)) (all_valid xs)
    = all_valid o
    /\ length o = length xs
    /\ forall i : nat, (i < length xs)%nat ->
         nth i o 0 == nth i xs 0 * alpha + nth i (w :: o) 0 * (1 - alpha).
Proof.
  induction xs as [| x xs IH]; intros w n.
  - exists []. split; [reflexivity | split; [reflexivity |]].
    intros i Hi. simpl in Hi. lia.
  - destruct (ewm_step_valid alpha w x (S n)) as [w' [Hstep Hw']].
    destruct (IH w' (n + 1)%nat) as [o [Ho [Hlen Hrec]]].
    exists (w' :: o).
    cbn [all_valid map pd.ewm_loop]. rewrite Hstep.
    split; [| split].
    + cbn [plus]. fold (all_valid xs). rewrite Ho. reflexivity.
    + simpl. now rewrite Hlen.
    + intros [| i] Hi.
      * exact Hw'.
      * apply Hrec. simpl in Hi. lia.
Qed.

(** With [alpha = 1] every valid input is passed through. *)
Lemma ewm_step_unit (alpha : Q) (st : pd.ewm_state) (c : Q) :
  alpha == 1 ->
  exists u,
    pd.ewm_output 1 (pd.ewm_step alpha st (Some c)) = Some u /\ u == c.
Proof.
  intros Ha. unfold pd.ewm_output, pd.ewm_step.
  destruct st as [[w |] ow n]; cbn [pd.weighted pd.old_wt pd.nobs pd.is_observation].
  - replace (1 <=? n + 1)%nat with true by (symmetry; apply Nat.leb_le; lia).
    destruct (Qeq_bool w c) eqn:E.
    + exists w. split; [reflexivity | now apply Qeq_bool_iff].
    + eexists. split; [reflexivity |].
      rewrite Ha. field.
  - replace (1 <=? n + 1)%nat with true by (symmetry; apply Nat.leb_le; lia).
    exists c. split; [reflexivity | apply Qeq_refl].
Qed.

Lemma ewm_loop_unit (alpha : Q) (vals : Series) :
  alpha == 1 ->
  forall (st : pd.ewm_state) (i : nat) (v : Q),
    nth_error vals i = Some (Some v) ->
    feq (nth i (pd.ewm_loop alpha 1 st vals) None) (Some v).
Proof.
  intros Ha. induction vals as [| cur vals IH]; intros st i v Hi.
  - destruct i; discriminate Hi.
  - destruct i as [| i]; simpl in Hi.
    + injection Hi as ->.
      destruct (ewm_step_unit alpha st v Ha) as [u [Hu E]].
      cbn [pd.ewm_loop nth]. rewrite Hu. exact E.
    + cbn [pd.ewm_loop nth]. now apply IH.
Qed.

(** On a constant series the guard of the loop keeps the average untouched. *)
Lemma ewm_loop_constant (alpha c : Q) (k : nat) :
  forall (ow : Q) (n : nat),
    pd.ewm_loop alpha 1 (pd.mk_ewm_state (Some c) ow (S n)) (repeat (Some c) k)
    = repeat (Some c) k.
Proof.
  induction k as [| k IH]; intros ow n; [reflexivity |].
  cbn [repeat pd.ewm_loop]. unfold pd.ewm_step at 1 2.
  cbn [pd.weighted pd.old_wt pd.nobs pd.is_observation].
  assert (E : Qeq_bool c c = true) by (apply Qeq_bool_iff, Qeq_refl).
  rewrite E. cbn [plus]. rewrite IH.
  reflexivity.
Qed.

Lemma ema_constant (c : Q) (k : nat) (span : Z) :
  (1 <= span)%Z ->
  ema (Some (repeat (Some c) k)) span = Ok (repeat (Some c) k).
Proof.
  intros Hs. destruct k as [| k]; [reflexivity |].
  unfold ema. cbn [repeat absent_or_empty pd.empty values].
  rewrite ewm_mean_ok by exact Hs.
  unfold pd.ewm. cbn [pd.is_observation].
  rewrite ewm_loop_constant. reflexivity.
Qed.

Lemma sub_length (a b : Series) :
  length (pd.sub a b) = Nat.min (length a) (length b).
Proof.
  revert b. induction a as [| x a IH]; intros [| y b]; simpl; try reflexivity.
  now rewrite IH.
Qed.

Lemma sub_nth (a b : Series) (i : nat) :
  (i < length a)%nat -> (i < length b)%nat ->
  nth i (pd.sub a b) None = pd.fsub (nth i a None) (nth i b None).
Proof.
  revert b i. induction a as [| x a IH]; intros [| y b] i Ha Hb; simpl in *; try lia.
  destruct i as [| i]; [reflexivity | apply IH; lia].
Qed.

Lemma sub_repeat (c d : Q) (k : nat) :
  pd.sub (repeat (Some c) k) (repeat (Some d) k) = repeat (Some (c - d)) k.
Proof.
  induction k as [| k IH]; simpl; [reflexivity | now rewrite IH].
Qed.

End Ewm.

(** ** Least-squares line *)

Section Regression.

Lemma inject_S (n : nat) :
  inject_Z (Z.of_nat (S n)) == inject_Z (Z.of_nat n) + 1.
Proof.
  rewrite Nat2Z.inj_succ. unfold Z.succ. rewrite inject_Z_plus. reflexivity.
Qed.

Lemma positions_length (lo k : nat) : length (positions lo k) = k.
Proof.
  unfold positions. now rewrite length_map, length_seq.
Qed.

Lemma positions_cons (lo k : nat) :
  positions lo (S k) = inject_Z (Z.of_nat lo) :: positions (S lo) k.
Proof. reflexivity. Qed.

(** Closed forms of the sums of positions and of their squares. *)
Lemma sum_positions (k : nat) :
  forall lo : nat,
    2 * np.sum (positions lo k)
    == inject_Z (Z.of_nat k)
       * (2 * inject_Z (Z.of_nat lo) + inject_Z (Z.of_nat k) - 1).
Proof.
  induction k as [| k IH]; intros lo.
  - simpl. ring.
  - rewrite positions_cons. cbn [np.sum fold_right].
    fold (np.sum (positions (S lo) k)).
    rewrite Qmult_plus_distr_r, IH, !inject_S. ring.
Qed.

Lemma sum_sq_positions (k : nat) :
  forall lo : nat,
    6 * np.sum (np.mul (positions lo k) (positions lo k))
    == inject_Z (Z.of_nat k)
       * (6 * inject_Z (Z.of_nat lo) * inject_Z (Z.of_nat lo)
          + 6 * inject_Z (Z.of_nat lo) * (inject_Z (Z.of_nat k) - 1)
          + (inject_Z (Z.of_nat k) - 1) * (2 * inject_Z (Z.of_nat k) - 1)).
Proof.
  induction k as [| k IH]; intros lo.
  - simpl. ring.
  - rewrite positions_cons. cbn [np.mul combine map np.sum fold_right fst snd].
    fold (np.mul (positions (S lo) k) (positions (S lo) k)).
    fold (np.sum (np.mul (positions (S lo) k) (positions (S lo) k))).
    rewrite Qmult_plus_distr_r, IH, !inject_S. ring.
Qed.

(** The determinant of the normal equations over [np.arange k]. *)
Lemma determinant_arange (k : nat) :
  12 * (inject_Z (Z.of_nat k) * np.sum (np.mul (np.arange k) (np.arange k))
        - np.sum (np.arange k) * np.sum (np.arange k))
  == inject_Z (Z.of_nat k) * inject_Z (Z.of_nat k)
     * (inject_Z (Z.of_nat k) - 1) * (inject_Z (Z.of_nat k) + 1).
Proof.
  change (np.arange k) with (positions 0 k).
  pose proof (sum_positions k 0) as H1.
  pose proof (sum_sq_positions k 0) as H2.
  change (inject_Z (Z.of_nat 0)) with 0 in H1, H2.
  set (K := inject_Z (Z.of_nat k)) in *.
  set (S1 := np.sum (positions 0 k)) in *.
  set (S2 := np.sum (np.mul (positions 0 k) (positions 0 k))) in *.
  assert (E1 : S1 == (1 # 2) * (K * (K - 1))) by lra.
  assert (E2 : S2 == (1 # 6) * (K * ((K - 1) * (2 * K - 1)))) by lra.
  rewrite E1, E2. ring.
Qed.

Lemma inject_nat_ge (k m : nat) :
  (m <= k)%nat -> inject_Z (Z.of_nat m) <= inject_Z (Z.of_nat k).
Proof.
  intros H. rewrite <- Zle_Qle. lia.
Qed.

Lemma determinant_positive (k : nat) :
  (2 <= k)%nat ->
  0 < inject_Z (Z.of_nat k) * np.sum (np.mul (np.arange k) (np.arange k))
      - np.sum (np.arange k) * np.sum (np.arange k).
Proof.
  intros Hk. pose proof (determinant_arange k) as H.
  pose proof (inject_nat_ge k 2 Hk) as HK.
  change (inject_Z (Z.of_nat 2)) with 2 in HK.
  set (K := inject_Z (Z.of_nat k)) in *.
  set (D := K * np.sum (np.mul (np.arange k) (np.arange k))
            - np.sum (np.arange k) * np.sum (np.arange k)) in *.
  assert (P : 0 < K * K * (K - 1) * (K + 1)).
  { repeat apply Qmult_lt_0_compat; lra. }
  lra.
Qed.

Lemma sum_cons (a : Q) (l : list Q) : np.sum (a :: l) = a + np.sum l.
Proof. reflexivity. Qed.

Lemma mul_cons (a b : Q) (x y : list Q) :
  np.mul (a :: x) (b :: y) = a * b :: np.mul x y.
Proof. reflexivity. Qed.








Lemma line_values_cons (base step : Q) (lo k : nat) :
  line_values base step lo (S k)
  = (base + step * inject_Z (Z.of_nat lo)) :: line_values base step (S lo) k.
Proof. reflexivity. Qed.

Lemma line_values_length (base step : Q) (lo k : nat) :
  length (line_values base step lo k) = k.
Proof.
  unfold line_values. now rewrite length_map, length_seq.
Qed.

(** The sums of a line sampled from position [lo] on, against the
    abscissae [m, m + 1, ...]. *)
Lemma sums_line (base step : Q) (k : nat) :
  forall lo m : nat,
    let shift := base + step * (inject_Z (Z.of_nat lo) - inject_Z (Z.of_nat m)) in
    np.sum (line_values base step lo k)
    == inject_Z (Z.of_nat k) * shift + step * np.sum (positions m k)
    /\ np.sum (np.mul (positions m k) (line_values base step lo k))
       == shift * np.sum (positions m k)
          + step * np.sum (np.mul (positions m k) (positions m k)).
Proof.
  induction k as [| k IH]; intros lo m shift; subst shift.
  - simpl. split; ring.
  - destruct (IH (S lo) (S m)) as [H1 H2].
    rewrite line_values_cons, positions_cons, !mul_cons, !sum_cons.
    rewrite H1, H2, !inject_S. split; ring.
Qed.

Lemma slope_of_line (base step : Q) (lo k : nat) :
  (2 <= k)%nat ->
  fst (least_squares_line (np.arange k) (line_values base step lo k)) == step.
Proof.
  intros Hk. pose proof (determinant_positive k Hk) as Hd.
  destruct (sums_line base step k lo 0) as [H1 H2].
  change (positions 0 k) with (np.arange k) in H1, H2.
  unfold least_squares_line. cbn [fst].
  rewrite H1, H2.
  replace (length (np.arange k)) with k
    by (unfold np.arange; now rewrite length_map, length_seq).
  set (n := inject_Z (Z.of_nat k)) in *.
  set (sx := np.sum (np.arange k)) in *.
  set (sxx := np.sum (np.mul (np.arange k) (np.arange k))) in *.
  field. lra.
Qed.

Lemma sums_constant (c : Q) (k : nat) :
  forall m : nat,
    np.sum (repeat c k) == inject_Z (Z.of_nat k) * c
    /\ np.sum (np.mul (positions m k) (repeat c k))
       == c * np.sum (positions m k).
Proof.
  induction k as [| k IH]; intros m.
  - simpl. split; ring.
  - destruct (IH (S m)) as [H1 H2].
    cbn [repeat]. rewrite positions_cons, !mul_cons, !sum_cons.
    rewrite H1, H2, inject_S. split; ring.
Qed.

Lemma slope_of_constant (c : Q) (k : nat) :
  fst (least_squares_line (np.arange k) (repeat c k)) == 0.
Proof.
  destruct (sums_constant c k 0) as [H1 H2].
  change (positions 0 k) with (np.arange k) in H2.
  unfold least_squares_line. cbn [fst].
  rewrite H1, H2.
  replace (length (np.arange k)) with k
    by (unfold np.arange; now rewrite length_map, length_seq).
  unfold Qdiv. ring.
Qed.

End Regression.

(** ** Classification and the two scalar summaries *)

Section Summaries.

Lemma fgt_true (a b : Q) : fgt a b = true <-> b < a.
Proof.
  unfold fgt. rewrite negb_true_iff.
  destruct (Qle_bool a b) eqn:E.
  - apply Qle_bool_iff in E. split; [discriminate | intros H; lra].
  - split; [intros _ | reflexivity].
    apply Qnot_le_lt. intros H. apply Qle_bool_iff in H. congruence.
Qed.

Lemma flt_true (a b : Q) : flt a b = true <-> a < b.
Proof. unfold flt. apply (fgt_true b a). Qed.

Lemma fgt_false (a b : Q) : fgt a b = false <-> a <= b.
Proof.
  unfold fgt. rewrite negb_false_iff. apply Qle_bool_iff.
Qed.

Lemma flt_false (a b : Q) : flt a b = false <-> b <= a.
Proof. unfold flt. apply (fgt_false b a). Qed.

Lemma classify_up (slope tol : Q) :
  tol < slope -> classify slope tol = "Up"%string.
Proof.
  intros H. unfold classify. now rewrite (proj2 (fgt_true slope tol) H).
Qed.

Lemma classify_down (slope tol : Q) :
  slope <= tol -> slope < - tol -> classify slope tol = "Down"%string.
Proof.
  intros H1 H2. unfold classify.
  rewrite (proj2 (fgt_false slope tol) H1).
  now rewrite (proj2 (flt_true slope (- tol)) H2).
Qed.

Lemma classify_sideways (slope tol : Q) :
  slope <= tol -> - tol <= slope -> classify slope tol = "Sideways"%string.
Proof.
  intros H1 H2. unfold classify.
  rewrite (proj2 (fgt_false slope tol) H1).
  now rewrite (proj2 (flt_false slope (- tol)) H2).
Qed.

(** Both summaries are functions of the selection [dropna (tail window s)]. *)
Lemma support_resistance_selection (s : Series) (window : Z) :
  support_resistance (Some s) window
  = levels_of (pd.dropna (pd.tail window s)).
Proof.
  unfold support_resistance. destruct s as [| v s]; [| reflexivity].
  cbn [absent_or_empty pd.empty]. now rewrite tail_nil.
Qed.

Lemma trend_direction_selection (polyfit : fit_function) (s : Series)
    (window : Z) (tol : Q) :
  trend_direction polyfit (Some s) window tol
  = trend_of polyfit (pd.dropna (pd.tail window s)) tol.
Proof.
  unfold trend_direction, trend_of, classify. destruct s as [| v s].
  - cbn [absent_or_empty pd.empty]. now rewrite tail_nil.
  - cbn [absent_or_empty pd.empty values].
    destruct (length (pd.dropna (pd.tail window (v :: s))) <? 2)%nat;
      [reflexivity |].
    destruct (fgt _ tol); [reflexivity |].
    destruct (flt _ (- tol)); reflexivity.
Qed.

Lemma tail_all_valid (xs : list Q) (window : Z) :
  pd.dropna (pd.tail window (all_valid xs)) = pd.tail window xs.
Proof.
  unfold pd.tail, all_valid. rewrite length_map.
  destruct (window =? 0)%Z; [reflexivity |].
  destruct (0 <? window)%Z; rewrite skipn_map; apply dropna_all_valid.
Qed.

Lemma skipn_repeat_count {A : Type} (v : A) (k m : nat) :
  skipn m (repeat v k) = repeat v (k - m).
Proof.
  revert m. induction k as [| k IH]; intros m.
  - now rewrite skipn_nil.
  - destruct m as [| m]; [reflexivity | apply IH].
Qed.

Lemma tail_repeat {A : Type} (v : A) (k : nat) (window : Z) :
  exists j : nat, pd.tail window (repeat v k) = repeat v j.
Proof.
  unfold pd.tail.
  destruct (window =? 0)%Z; [now exists 0%nat |].
  destruct (0 <? window)%Z; rewrite skipn_repeat_count; eexists; reflexivity.
Qed.

Lemma tail_line_values (base step : Q) (n : nat) (window : Z) :
  (0 < window)%Z -> (window <= Z.of_nat n)%Z ->
  pd.tail window (line_values base step 0 n)
  = line_values base step (n - Z.to_nat window) (Z.to_nat window).
Proof.
  intros Hw Hn. rewrite tail_positive by exact Hw.
  unfold line_values. rewrite length_map, length_seq.
  rewrite skipn_map, skipn_seq. f_equal. f_equal; lia.
Qed.

Lemma fit_error_bounds (polyfit : fit_function) (y : list Q) (err : Q) :
  fit_error polyfit y <= err ->
  fst (least_squares_line (np.arange (length y)) y) - err
  <= fst (polyfit (np.arange (length y)) y)
  /\ fst (polyfit (np.arange (length y)) y)
     <= fst (least_squares_line (np.arange (length y)) y) + err.
Proof.
  unfold fit_error. intros H. apply Qabs_Qle_condition in H.
  destruct H as [H1 H2]. split; lra.
Qed.

Lemma fit_error_nonneg (polyfit : fit_function) (y : list Q) :
  0 <= fit_error polyfit y.
Proof. apply Qabs_nonneg. Qed.

End Summaries.

(** ** Concrete runs *)

Example ema_across_gap :
  ema (Some series_with_gap) 3 = Ok [Some 4; Some 4; Some (20480 # 3072)].
Proof. vm_compute. reflexivity. Qed.

Example ema_rejects_span_zero :
  ema (Some [Some 1]) 0 = Raise (ValueError "span must satisfy: span >= 1").
Proof. reflexivity. Qed.

Example ema_empty_ignores_span : ema (Some []) 0 = Ok [].
Proof. reflexivity. Qed.

Example tail_cuts_before_dropna :
  pd.dropna (pd.tail 2 series_missing_last) = [2]
  /\ trailing_valid 2 series_missing_last = [1; 2].
Proof. split; reflexivity. Qed.

(** A [None] argument is treated as an empty series. *)
Lemma absent_input_sentinels (polyfit : fit_function)
    (span fast slow signal window : Z) (tol : Q) :
  ema None span = Ok []
  /\ macd None fast slow signal = Ok ([], [], [])
  /\ support_resistance None window = (0, 0)
  /\ trend_direction polyfit None window tol = ("Sideways"%string, 0).
Proof. repeat split. Qed.

(** X7: support and resistance are the least and the greatest selected
    point: they bound every valid entry of the trailing window and are
    themselves entries of it. *)
Lemma support_resistance_extrema (s : Series) (window : Z) (u : Q) :
  In u (pd.dropna (pd.tail window s)) ->
  fst (support_resistance (Some s) window) <= u
  /\ u <= snd (support_resistance (Some s) window)
  /\ In (fst (support_resistance (Some s) window))
        (pd.dropna (pd.tail window s))
  /\ In (snd (support_resistance (Some s) window))
        (pd.dropna (pd.tail window s)).
Proof.
  rewrite support_resistance_selection.
  destruct (pd.dropna (pd.tail window s)) as [| v vs]; [intros [] |].
  intros Hu. cbn [levels_of fst snd].
  split; [now apply min_lower_bound |].
  split; [now apply max_upper_bound |].
  split; [apply min_attained | apply max_attained].
Qed.

(** ** The windowed summaries *)

(** C1, as stated, fails: on [1, 2, NaN] with window 2 the source keeps the
    last two raw positions [2, NaN] and then drops the missing one, so both
    summaries are computed over [2] alone and not over the last two valid
    points [1, 2]: the levels are (2, 2) and not (1, 2), and the trend is the
    fallback ("Sideways", 0.0) where a fit of [1, 2] (exact slope 1, here
    any fit within 1/2 of it) gives "Up". *)
Lemma C1_trailing_valid_refuted :
  support_resistance (Some series_missing_last) 2
    <> levels_of (trailing_valid 2 series_missing_last)
  /\ forall polyfit : fit_function,
       fit_error polyfit (trailing_valid 2 series_missing_last) <= 1 # 2 ->
       trend_direction polyfit (Some series_missing_last) 2 default_tol
       <> trend_of polyfit (trailing_valid 2 series_missing_last) default_tol.
Proof.
  split; [vm_compute; intros H; discriminate H |].
  intros polyfit He.
  change (trailing_valid 2 series_missing_last) with [1; 2] in *.
  destruct (fit_error_bounds polyfit [1; 2] (1 # 2) He) as [Hlo _].
  assert (E : fst (least_squares_line (np.arange (length [1; 2])) [1; 2]) == 1)
    by reflexivity.
  rewrite E in Hlo.
  change (trend_direction polyfit (Some series_missing_last) 2 default_tol)
    with ("Sideways"%string, 0).
  unfold trend_of. cbn [length Nat.ltb Nat.leb].
  rewrite classify_up by (unfold default_tol; cbn [length] in Hlo; lra).
  discriminate.
Qed.

(** C1, amended: for every series and positive window, support_resistance
    and trend_direction are computed over the valid entries found among the
    last [window] raw positions of the series (the window is cut first, the
    missing values are dropped afterwards). *)
Theorem C1_window_cut_before_dropna (polyfit : fit_function) (s : Series)
    (window : Z) (tol : Q) :
  (0 < window)%Z ->
  let y := valid_between s (length s - Z.to_nat window)
             (Nat.min (Z.to_nat window) (length s)) in
  support_resistance (Some s) window = levels_of y
  /\ trend_direction polyfit (Some s) window tol = trend_of polyfit y tol.
Proof.
  intros Hw y. subst y.
  rewrite support_resistance_selection, trend_direction_selection.
  rewrite selection_positions by exact Hw.
  split; reflexivity.
Qed.

(** On [1, 2, NaN] with window 2 the positions are 1 and 2. *)
Lemma C1_window_cut_before_dropna_witness :
  (0 < 2)%Z
  /\ support_resistance (Some series_missing_last) 2
     = levels_of (valid_between series_missing_last 1 2)
  /\ trend_direction least_squares_line (Some series_missing_last) 2
       default_tol
     = trend_of least_squares_line (valid_between series_missing_last 1 2)
         default_tol.
Proof.
  split; [lia |].
  apply (C1_window_cut_before_dropna least_squares_line series_missing_last 2
           default_tol). lia.
Defined.

(** C4: an empty input yields the sentinel of each operation and no error:
    an empty series for ema, three empty series for macd, (0.0, 0.0) for
    support_resistance and ("Sideways", 0.0) for trend_direction;
    support_resistance also returns (0.0, 0.0) when every entry of the
    trailing window is missing. *)
Theorem C4_empty_input_sentinels (polyfit : fit_function)
    (span fast slow signal window : Z) (tol : Q) :
  ema (Some []) span = Ok []
  /\ macd (Some []) fast slow signal = Ok ([], [], [])
  /\ support_resistance (Some []) window = (0, 0)
  /\ trend_direction polyfit (Some []) window tol = ("Sideways"%string, 0)
  /\ forall s : Series,
       Forall (fun v => v = None) (pd.tail window s) ->
       support_resistance (Some s) window = (0, 0).
Proof.
  repeat split.
  intros s Hs. rewrite support_resistance_selection.
  now rewrite (dropna_missing _ Hs).
Qed.

(** A trailing window of two missing entries after a valid one. *)
Lemma C4_empty_input_sentinels_witness :
  Forall (fun v : option Q => v = None) (pd.tail 2 [Some 1; None; None])
  /\ support_resistance (Some [Some 1; None; None]) 2 = (0, 0).
Proof.
  assert (H : Forall (fun v : option Q => v = None)
                (pd.tail 2 [Some 1; None; None])).
  { cbv [pd.tail Z.eqb Z.ltb Z.compare length Z.to_nat Pos.to_nat
         Pos.iter_op Nat.add Nat.sub skipn].
    repeat constructor. }
  split; [exact H |].
  exact (proj2 (proj2 (proj2 (proj2
    (C4_empty_input_sentinels least_squares_line 1 default_fast default_slow
       default_signal 2 default_tol)))) [Some 1; None; None] H).
Defined.

(** C5: whenever the trailing window holds at least one valid point,
    support_resistance returns a pair with support <= resistance. *)
Theorem C5_support_le_resistance (s : Series) (window : Z) :
  (0 < window)%Z ->
  pd.dropna (pd.tail window s) <> [] ->
  fst (support_resistance (Some s) window)
  <= snd (support_resistance (Some s) window).
Proof.
  intros _ Hy. rewrite support_resistance_selection.
  destruct (pd.dropna (pd.tail window s)) as [| v vs]; [congruence |].
  cbn [levels_of fst snd].
  eapply Qle_trans; [apply min_le_seed | apply max_ge_seed].
Qed.

(** The end-to-end series with window 5. *)
Lemma C5_support_le_resistance_witness :
  (0 < 5)%Z
  /\ pd.dropna (pd.tail 5 example_series) <> []
  /\ fst (support_resistance (Some example_series) 5)
     <= snd (support_resistance (Some example_series) 5).
Proof.
  assert (H : pd.dropna (pd.tail 5 example_series) <> [])
    by (vm_compute; discriminate).
  split; [lia |]. split; [exact H |].
  apply (C5_support_le_resistance example_series 5); [lia | exact H].
Defined.

(** C10: when the trailing window holds exactly one valid point p,
    support_resistance returns (p, p), not the (0.0, 0.0) sentinel, while
    trend_direction on the same input falls back to ("Sideways", 0.0). *)
Theorem C10_single_valid_point (polyfit : fit_function) (s : Series)
    (window : Z) (tol p : Q) (before after : nat) :
  (0 < window)%Z ->
  pd.tail window s = repeat None before ++ Some p :: repeat None after ->
  support_resistance (Some s) window = (p, p)
  /\ trend_direction polyfit (Some s) window tol = ("Sideways"%string, 0).
Proof.
  intros _ Hw.
  rewrite support_resistance_selection, trend_direction_selection, Hw.
  rewrite dropna_app. cbn [pd.dropna].
  rewrite !dropna_missing by (apply Forall_forall; intros v Hv;
                              now apply repeat_spec in Hv).
  split; reflexivity.
Qed.

(** The last three entries of [7, NaN, 9, NaN] hold the single point 9. *)
Lemma C10_single_valid_point_witness :
  (0 < 3)%Z
  /\ pd.tail 3 [Some 7; None; Some 9; None]
     = repeat None 1 ++ Some 9 :: repeat None 1
  /\ support_resistance (Some [Some 7; None; Some 9; None]) 3 = (9, 9)
  /\ trend_direction least_squares_line (Some [Some 7; None; Some 9; None]) 3
       default_tol
     = ("Sideways"%string, 0).
Proof.
  split; [lia |]. split; [reflexivity |].
  apply (C10_single_valid_point least_squares_line
           [Some 7; None; Some 9; None] 3 default_tol 9 1 1);
    [lia | reflexivity].
Defined.

(** ** EMA and MACD *)

(** C2, as stated, fails on a series with a missing entry: on [4, NaN, 8]
    with span 3 (alpha = 1/2) pandas re-weights across the gap and returns
    [4, 4, 20/3], whereas the recursion asks for 8/2 + 4/2 = 6 at index 2
    (and for NaN at index 1). *)
Lemma C2_recursion_refuted_by_gap :
  ~ exists out : Series,
      ema (Some series_with_gap) 3 = Ok out
      /\ ema_recursion series_with_gap out (smoothing 3).
Proof.
  intros [out [E [_ [_ H]]]].
  vm_compute in E. injection E as <-.
  specialize (H 2%nat). cbn [series_with_gap length] in H.
  assert (L : (0 < 2 < 3)%nat) by lia.
  specialize (H L). vm_compute in H. discriminate H.
Qed.

(** C2, amended: for every non-empty price series without missing entries
    and every integer span >= 1, ema returns a series of the same length
    with output[0] = input[0] and, for every i > 0,
    output[i] = input[i]*alpha + output[i-1]*(1-alpha), alpha = 2/(span+1). *)
Theorem C2_ema_recursion (xs : list Q) (span : Z) :
  xs <> [] ->
  (1 <= span)%Z ->
  exists out : Series,
    ema (Some (all_valid xs)) span = Ok out
    /\ ema_recursion (all_valid xs) out (smoothing span).
Proof.
  intros Hxs Hs. destruct xs as [| x0 xs]; [congruence |].
  unfold ema. cbn [all_valid map absent_or_empty pd.empty values].
  fold (all_valid xs).
  rewrite ewm_mean_ok by exact Hs.
  unfold pd.ewm. cbn [pd.is_observation].
  destruct (ewm_loop_valid (1 / (1 + (inject_Z span - 1) / 2)) xs x0 0)
    as [o [Ho [Hlen Hrec]]].
  rewrite Ho. eexists. split; [reflexivity |].
  unfold ema_recursion. cbn [length pd.ewm_output pd.nobs pd.weighted Nat.leb].
  rewrite !all_valid_length, Hlen.
  split; [reflexivity |]. split; [cbn [nth feq]; apply Qeq_refl |].
  intros [| j] Hj; [lia |].
  replace (S j - 1)%nat with j by lia.
  change (nth (S j) (Some x0 :: all_valid o) None)
    with (nth j (all_valid o) None).
  change (nth (S j) (Some x0 :: all_valid xs) None)
    with (nth j (all_valid xs) None).
  change (Some x0 :: all_valid o) with (all_valid (x0 :: o)).
  rewrite !nth_all_valid by (cbn [length]; lia).
  cbn [fmul fadd feq].
  rewrite <- (alpha_of_span span Hs). apply Hrec. lia.
Qed.

(** The series [4, 5, 8] with span 3. *)
Lemma C2_ema_recursion_witness :
  [4; 5; 8] <> []
  /\ (1 <= 3)%Z
  /\ exists out : Series,
       ema (Some (all_valid [4; 5; 8])) 3 = Ok out
       /\ ema_recursion (all_valid [4; 5; 8]) out (smoothing 3).
Proof.
  split; [discriminate |]. split; [lia |].
  apply (C2_ema_recursion [4; 5; 8] 3); [discriminate | lia].
Defined.

(** C9, as stated, fails on a series with a missing entry: with span 1 the
    series [1, NaN] comes back as [1, 1], the missing entry being replaced by
    the previous average. *)
Lemma C9_span_one_refuted_by_missing :
  ~ exists out : Series,
      ema (Some [Some 1; None]) 1 = Ok out
      /\ Forall2 same_entry out [Some 1; None].
Proof.
  intros [out [E H]].
  vm_compute in E. injection E as <-.
  inversion H as [| a b l l' _ H' ]; subst.
  inversion H' as [| a' b' l1 l1' F _ ]; subst.
  exact F.
Qed.

(** C9, amended: for every non-empty price series, ema with span = 1 returns
    a series of the same length that equals the input at every index whose
    input entry is valid (alpha = 1); in particular a series without missing
    entries is returned unchanged pointwise. *)
Theorem C9_ema_span_one (s : Series) :
  s <> [] ->
  exists out : Series,
    ema (Some s) 1 = Ok out
    /\ length out = length s
    /\ forall (i : nat) (v : Q),
         nth_error s i = Some (Some v) -> feq (nth i out None) (Some v).
Proof.
  intros Hs. destruct s as [| v0 vals]; [congruence |].
  unfold ema. cbn [absent_or_empty pd.empty values].
  rewrite ewm_mean_ok by lia.
  eexists. split; [reflexivity |]. split; [apply ewm_length |].
  intros i v Hi. unfold pd.ewm.
  destruct i as [| i]; cbn [nth_error] in Hi.
  - injection Hi as ->. cbn. apply Qeq_refl.
  - cbn [nth]. apply ewm_loop_unit; [reflexivity | exact Hi].
Qed.

(** The series [3, NaN, 5] with span 1. *)
Lemma C9_ema_span_one_witness :
  [Some 3; None; Some 5] <> []
  /\ exists out : Series,
       ema (Some [Some 3; None; Some 5]) 1 = Ok out
       /\ length out = 3%nat
       /\ forall (i : nat) (v : Q),
            nth_error [Some 3; None; Some 5] i = Some (Some v) ->
            feq (nth i out None) (Some v).
Proof.
  split; [discriminate |].
  apply (C9_ema_span_one [Some 3; None; Some 5]). discriminate.
Defined.

(** C3: for every non-empty price series and positive periods, macd returns
    three series of the length of the input, with
    macd_line = ema(series, fast) - ema(series, slow) pointwise,
    signal_line = ema(macd_line, signal) and
    histogram = macd_line - signal_line pointwise. *)
Theorem C3_macd_decomposition (s : Series) (fast slow signal : Z) :
  s <> [] ->
  (1 <= fast)%Z -> (1 <= slow)%Z -> (1 <= signal)%Z ->
  exists e_fast e_slow macd_line signal_line hist : Series,
    ema (Some s) fast = Ok e_fast
    /\ ema (Some s) slow = Ok e_slow
    /\ macd (Some s) fast slow signal = Ok (macd_line, signal_line, hist)
    /\ length macd_line = length s
    /\ length signal_line = length s
    /\ length hist = length s
    /\ ema (Some macd_line) signal = Ok signal_line
    /\ forall i : nat, (i < length s)%nat ->
         nth i macd_line None
         = pd.fsub (nth i e_fast None) (nth i e_slow None)
         /\ nth i hist None
            = pd.fsub (nth i macd_line None) (nth i signal_line None).
Proof.
  intros Hs Hf Hsl Hsg.
  destruct (ema_ok s fast Hf) as [ef [Ef Lf]].
  destruct (ema_ok s slow Hsl) as [es [Es Ls]].
  destruct (ema_ok (pd.sub ef es) signal Hsg) as [sg [Eg Lg]].
  assert (Lm : length (pd.sub ef es) = length s)
    by (rewrite sub_length; lia).
  assert (Lh : length (pd.sub (pd.sub ef es) sg) = length s)
    by (rewrite sub_length; lia).
  exists ef, es, (pd.sub ef es), sg, (pd.sub (pd.sub ef es) sg).
  repeat (split; [first [assumption | lia] |]).
  split.
  - unfold macd. destruct s as [| v s]; [congruence |].
    cbn [absent_or_empty pd.empty].
    rewrite Ef, Es. cbn [bind]. rewrite Eg. reflexivity.
  - repeat (split; [first [assumption | lia] |]).
    intros i Hi. split; apply sub_nth; lia.
Qed.

(** The end-to-end series with the default periods 12, 26, 9. *)
Lemma C3_macd_decomposition_witness :
  example_series <> []
  /\ (1 <= default_fast)%Z /\ (1 <= default_slow)%Z /\ (1 <= default_signal)%Z
  /\ exists e_fast e_slow macd_line signal_line hist : Series,
       ema (Some example_series) default_fast = Ok e_fast
       /\ ema (Some example_series) default_slow = Ok e_slow
       /\ macd (Some example_series) default_fast default_slow default_signal
          = Ok (macd_line, signal_line, hist)
       /\ length macd_line = length example_series
       /\ length signal_line = length example_series
       /\ length hist = length example_series
       /\ ema (Some macd_line) default_signal = Ok signal_line
       /\ forall i : nat, (i < length example_series)%nat ->
            nth i macd_line None
            = pd.fsub (nth i e_fast None) (nth i e_slow None)
            /\ nth i hist None
               = pd.fsub (nth i macd_line None) (nth i signal_line None).
Proof.
  assert (H : example_series <> []) by discriminate.
  split; [exact H |].
  split; [unfold default_fast; lia |].
  split; [unfold default_slow; lia |].
  split; [unfold default_signal; lia |].
  apply (C3_macd_decomposition example_series
           default_fast default_slow default_signal);
    [exact H | unfold default_fast; lia | unfold default_slow; lia
     | unfold default_signal; lia].
Defined.

(** ** Trend direction *)

Section TrendFacts.

Lemma classify_not_up (slope tol : Q) :
  slope <= tol -> classify slope tol <> "Up"%string.
Proof.
  intros H. unfold classify. rewrite (proj2 (fgt_false slope tol) H).
  destruct (flt slope (- tol)); discriminate.
Qed.

Lemma dropna_repeat (c : Q) (j : nat) :
  pd.dropna (repeat (Some c) j) = repeat c j.
Proof.
  induction j as [| j IH]; [reflexivity | simpl; now rewrite IH].
Qed.

End TrendFacts.



(** C7, as stated, fails in its general part: a strictly increasing linear
    series need not be labelled "Up".  With window 1 the selection holds one
    point and the result is ("Sideways", 0.0), whatever the fit.  With a
    step below the tolerance (1e-7 against 1e-6) no fit within 9e-7 of the
    exact slope gives "Up".  And a step above the tolerance is not enough
    either: on [10..20] with window 5 a float64 solve returns a slope a few
    units in the last place below 1 (0.9999999999999982), which a tolerance
    of 0.999999999999999 labels "Sideways". *)
Lemma C7_increasing_line_not_up :
  (1 <= Z.of_nat 3)%Z
  /\ (forall polyfit : fit_function,
        ~ (exists slope : Q,
             trend_direction polyfit (Some (linear_series 1 1 3)) 1 default_tol
             = ("Up"%string, slope)
             /\ 0 < slope))
  /\ (3 <= Z.of_nat 3)%Z
  /\ (forall polyfit : fit_function,
        fit_error polyfit
          (pd.dropna (pd.tail 3 (linear_series 0 (1 # 10000000) 3)))
        <= 9 # 10000000 ->
        ~ (exists slope : Q,
             trend_direction polyfit
               (Some (linear_series 0 (1 # 10000000) 3)) 3 default_tol
             = ("Up"%string, slope)
             /\ 0 < slope))
  /\ fit_error (fit_with_slope (9999999999999982 # 10000000000000000))
       (pd.dropna (pd.tail 5 example_series))
     <= 2 # 1000000000000000
  /\ (999999999999999 # 1000000000000000) < 1
  /\ fst (trend_direction
            (fit_with_slope (9999999999999982 # 10000000000000000))
            (Some example_series) 5 (999999999999999 # 1000000000000000))
     = "Sideways"%string.
Proof.
  split; [lia |]. split.
  { intros polyfit [slope [E _]]. vm_compute in E. discriminate E. }
  split; [lia |]. split.
  { intros polyfit He [slope [E _]].
    rewrite trend_direction_selection in E.
    set (y := pd.dropna (pd.tail 3 (linear_series 0 (1 # 10000000) 3))) in *.
    destruct (fit_error_bounds polyfit y _ He) as [_ Hhi].
    assert (X : fst (least_squares_line (np.arange (length y)) y)
                == 1 # 10000000) by (vm_compute; reflexivity).
    rewrite X in Hhi.
    unfold trend_of in E.
    change (length y <? 2)%nat with false in E.
    injection E as E _.
    revert E. apply classify_not_up. unfold default_tol.
    change (length y) with 3%nat in Hhi. lra. }
  split; [vm_compute; discriminate |].
  split; vm_compute; reflexivity.
Qed.

(** C7, amended: on [10, 11, ..., 20] with window 5, support_resistance
    returns support 16.0 and resistance 20.0, and trend_direction returns
    the label "Up" with a slope that differs from 1.0 by no more than the
    rounding error of the fit (for an error below 1 - tol); more generally,
    a strictly increasing linear series of step [step] and length >= window
    yields the label "Up" with slope > 0 provided window >= 2 and [step]
    exceeds both the tolerance and 0 by more than the rounding error of the
    fit. *)
Theorem C7_increasing_line_up :
  (support_resistance (Some example_series) 5 = (16, 20)
   /\ forall (polyfit : fit_function) (err : Q),
        fit_error polyfit (pd.dropna (pd.tail 5 example_series)) <= err ->
        default_tol + err < 1 ->
        exists slope : Q,
          trend_direction polyfit (Some example_series) 5 default_tol
          = ("Up"%string, slope)
          /\ Qabs (slope - 1) <= err)
  /\ forall (polyfit : fit_function) (base step : Q) (n : nat) (window : Z)
       (tol err : Q),
       (2 <= window)%Z -> (window <= Z.of_nat n)%Z ->
       0 < step ->
       fit_error polyfit
         (pd.dropna (pd.tail window (linear_series base step n))) <= err ->
       tol + err < step -> err < step ->
       exists slope : Q,
         trend_direction polyfit (Some (linear_series base step n)) window tol
         = ("Up"%string, slope)
         /\ 0 < slope.
Proof.
  split.
  - split; [vm_compute; reflexivity |].
    intros polyfit err He Herr.
    rewrite trend_direction_selection.
    set (y := pd.dropna (pd.tail 5 example_series)) in *.
    destruct (fit_error_bounds polyfit y err He) as [Hlo Hhi].
    assert (X : fst (least_squares_line (np.arange (length y)) y) == 1)
      by (vm_compute; reflexivity).
    rewrite X in Hlo, Hhi.
    unfold trend_of. change (length y) with 5%nat in *.
    change (5 <? 2)%nat with false.
    eexists. split.
    + f_equal. apply classify_up. lra.
    + apply Qabs_Qle_condition. split; lra.
  - intros polyfit base step n window tol err Hw Hn Hstep He Htol Herr.
    rewrite trend_direction_selection.
    set (y := pd.dropna (pd.tail window (linear_series base step n))) in *.
    assert (Ey : y = line_values base step (n - Z.to_nat window)
                       (Z.to_nat window)).
    { subst y. unfold linear_series.
      now rewrite tail_all_valid, tail_line_values by lia. }
    destruct (fit_error_bounds polyfit y err He) as [Hlo _].
    assert (X : fst (least_squares_line (np.arange (length y)) y) == step).
    { rewrite Ey, line_values_length. apply slope_of_line. lia. }
    rewrite X in Hlo.
    unfold trend_of.
    assert (L : (length y <? 2)%nat = false).
    { rewrite Ey, line_values_length. apply Nat.ltb_ge. lia. }
    rewrite L. eexists. split.
    + f_equal. apply classify_up. lra.
    + lra.
Qed.

(** The line 10 + i, eleven points, window 5, default tolerance, for a fit
    without rounding. *)
Lemma C7_increasing_line_up_witness :
  (2 <= 5)%Z /\ (5 <= Z.of_nat 11)%Z /\ 0 < 1
  /\ fit_error least_squares_line
       (pd.dropna (pd.tail 5 (linear_series 10 1 11))) <= 0
  /\ default_tol + 0 < 1 /\ 0 < 1
  /\ exists slope : Q,
       trend_direction least_squares_line (Some (linear_series 10 1 11)) 5
         default_tol
       = ("Up"%string, slope)
       /\ 0 < slope.
Proof.
  assert (He : fit_error least_squares_line
                 (pd.dropna (pd.tail 5 (linear_series 10 1 11))) <= 0)
    by (vm_compute; discriminate).
  split; [lia |]. split; [lia |]. split; [reflexivity |].
  split; [exact He |]. split; [reflexivity |]. split; [reflexivity |].
  apply (proj2 C7_increasing_line_up least_squares_line 10 1 11%nat 5%Z
           default_tol 0);
    [lia | lia | reflexivity | exact He | reflexivity | reflexivity].
Defined.

(** C8, as stated, fails in its trend half: not every constant series is
    labelled "Sideways".  On 26 values 1e10 with window 5 the exact slope is
    0 but a float64 solve leaves a rounding error of the order of 1e-6
    (numpy returns about -1.18e-06), which the default tolerance 1e-6 labels
    "Down". *)
Lemma C8_constant_not_sideways :
  fit_error (fit_with_slope (- (11756 # 10000000000)))
    (pd.dropna (pd.tail 5 (repeat (Some 10000000000) 26)))
  <= 12 # 10000000
  /\ trend_direction (fit_with_slope (- (11756 # 10000000000)))
       (Some (repeat (Some 10000000000) 26)) 5 default_tol
     = ("Down"%string, - (11756 # 10000000000)).
Proof.
  split; [vm_compute; discriminate | vm_compute; reflexivity].
Qed.

(** C8, amended: on a constant series (26 values 5.0 in particular) ema
    returns the constant at every index, so the MACD line, the signal line
    and the histogram are 0 at every index; trend_direction returns a slope
    that is the rounding error of the fit around 0.0, and the label
    "Sideways" whenever that error does not exceed the tolerance. *)
Theorem C8_constant_series_flat (polyfit : fit_function) (c : Q) (k : nat)
    (fast slow signal window : Z) (tol err : Q) :
  (1 <= fast)%Z -> (1 <= slow)%Z -> (1 <= signal)%Z ->
  ema (Some (repeat (Some c) k)) fast = Ok (repeat (Some c) k)
  /\ (exists macd_line signal_line hist : Series,
        macd (Some (repeat (Some c) k)) fast slow signal
        = Ok (macd_line, signal_line, hist)
        /\ length macd_line = k /\ length signal_line = k /\ length hist = k
        /\ Forall zero_entry macd_line
        /\ Forall zero_entry signal_line
        /\ Forall zero_entry hist)
  /\ (fit_error polyfit (pd.dropna (pd.tail window (repeat (Some c) k)))
      <= err ->
      err <= tol ->
      exists slope : Q,
        trend_direction polyfit (Some (repeat (Some c) k)) window tol
        = ("Sideways"%string, slope)
        /\ Qabs slope <= err).
Proof.
  intros Hf Hsl Hsg.
  split; [now apply ema_constant |]. split.
  - exists (repeat (Some (c - c)) k), (repeat (Some (c - c)) k),
           (repeat (Some (c - c - (c - c))) k).
    split.
    + destruct k as [| k]; [reflexivity |].
      unfold macd. cbn [repeat absent_or_empty pd.empty].
      change (Some c :: repeat (Some c) k) with (repeat (Some c) (S k)).
      rewrite !ema_constant by assumption. cbn [bind].
      rewrite sub_repeat, ema_constant by assumption. cbn [bind].
      now rewrite sub_repeat.
    + rewrite !repeat_length.
      repeat (split; [reflexivity |]).
      repeat split; apply Forall_forall; intros v Hv;
        apply repeat_spec in Hv; subst v; cbn [zero_entry]; ring.
  - intros He Herr. rewrite trend_direction_selection.
    set (y := pd.dropna (pd.tail window (repeat (Some c) k))) in *.
    assert (Ey : exists j : nat, y = repeat c j).
    { subst y. destruct (tail_repeat (Some c) k window) as [j ->].
      exists j. apply dropna_repeat. }
    destruct Ey as [j Ey].
    pose proof (fit_error_nonneg polyfit y) as H0.
    destruct (fit_error_bounds polyfit y err He) as [Hlo Hhi].
    assert (X : fst (least_squares_line (np.arange (length y)) y) == 0).
    { rewrite Ey, repeat_length. apply slope_of_constant. }
    rewrite X in Hlo, Hhi.
    unfold trend_of. destruct (length y <? 2)%nat.
    + exists 0. split; [reflexivity |].
      change (Qabs 0) with 0. lra.
    + eexists. split.
      * f_equal. apply classify_sideways; lra.
      * apply Qabs_Qle_condition. split; lra.
Qed.

(** Twenty-six values 5.0 with the default periods, window and tolerance,
    for a fit without rounding. *)
Lemma C8_constant_series_flat_witness :
  (1 <= default_fast)%Z /\ (1 <= default_slow)%Z /\ (1 <= default_signal)%Z
  /\ fit_error least_squares_line
       (pd.dropna (pd.tail default_trend_window (repeat (Some 5) 26))) <= 0
  /\ 0 <= default_tol
  /\ ema (Some (repeat (Some 5) 26)) default_fast = Ok (repeat (Some 5) 26)
  /\ (exists macd_line signal_line hist : Series,
        macd (Some (repeat (Some 5) 26)) default_fast default_slow
          default_signal
        = Ok (macd_line, signal_line, hist)
        /\ length macd_line = 26%nat /\ length signal_line = 26%nat
        /\ length hist = 26%nat
        /\ Forall zero_entry macd_line
        /\ Forall zero_entry signal_line
        /\ Forall zero_entry hist)
  /\ exists slope : Q,
       trend_direction least_squares_line (Some (repeat (Some 5) 26))
         default_trend_window default_tol
       = ("Sideways"%string, slope)
       /\ Qabs slope <= 0.
Proof.
  assert (He : fit_error least_squares_line
                 (pd.dropna (pd.tail default_trend_window
                               (repeat (Some 5) 26))) <= 0)
    by (vm_compute; discriminate).
  assert (Ht : 0 <= default_tol) by discriminate.
  destruct (C8_constant_series_flat least_squares_line 5 26 default_fast
              default_slow default_signal default_trend_window default_tol 0)
    as [H1 [H2 H3]];
    [unfold default_fast; lia | unfold default_slow; lia
     | unfold default_signal; lia |].
  split; [unfold default_fast; lia |].
  split; [unfold default_slow; lia |].
  split; [unfold default_signal; lia |].
  split; [exact He |]. split; [exact Ht |].
  split; [exact H1 |]. split; [exact H2 |].
  exact (H3 He Ht).
Defined.

(** ** The weighted mean on series with missing entries *)

Section EwmInvariants.

Lemma alpha_range (span : Z) :
  (1 <= span)%Z ->
  0 < 1 / (1 + (inject_Z span - 1) / 2)
  /\ 1 / (1 + (inject_Z span - 1) / 2) <= 1.
Proof.
  intros Hs. rewrite (alpha_of_span span Hs). unfold smoothing.
  assert (H : inject_Z 1 <= inject_Z span) by (rewrite <- Zle_Qle; lia).
  change (inject_Z 1) with 1 in H.
  split.
  - apply Qlt_shift_div_l; lra.
  - apply Qle_shift_div_r; lra.
Qed.

(** Whatever the guard for constant series decides, a step on two numbers
    yields their weighted mean. *)
Lemma ewm_step_mean (alpha : Q) (st : pd.ewm_state) (w c : Q) :
  0 < alpha -> 0 <= pd.old_wt st * (1 - alpha) ->
  pd.weighted st = Some w ->
  exists w' : Q,
    pd.ewm_step alpha st (Some c)
    = pd.mk_ewm_state (Some w') 1 (pd.nobs st + 1)
    /\ w' == (pd.old_wt st * (1 - alpha) * w + alpha * c)
             / (pd.old_wt st * (1 - alpha) + alpha).
Proof.
  intros Ha Ho Hw. unfold pd.ewm_step. rewrite Hw.
  cbn [pd.is_observation].
  destruct (Qeq_bool w c) eqn:E.
  - exists w. split; [reflexivity |].
    apply Qeq_bool_iff in E. rewrite <- E. field. lra.
  - eexists. split; [reflexivity | apply Qeq_refl].
Qed.

(** Once a valid entry has been seen, every later output is a number. *)
Lemma ewm_loop_seen (alpha : Q) (vals : Series) :
  forall st : pd.ewm_state,
    pd.weighted st <> None -> (1 <= pd.nobs st)%nat ->
    exists o : list Q,
      pd.ewm_loop alpha 1 st vals = all_valid o /\ length o = length vals.
Proof.
  induction vals as [| cur vals IH]; intros st Hw Hn.
  - exists []. split; reflexivity.
  - cbn [pd.ewm_loop].
    assert (Hst : exists w' ow' n',
               pd.ewm_step alpha st cur = pd.mk_ewm_state (Some w') ow' (S n')).
    { unfold pd.ewm_step. destruct (pd.weighted st) as [w |]; [| congruence].
      destruct (pd.nobs st) as [| n]; [lia |].
      destruct cur as [c |]; cbn [pd.is_observation];
        do 3 eexists; rewrite Nat.add_comm; reflexivity. }
    destruct Hst as [w' [ow' [n' Hst]]]. rewrite Hst.
    destruct (IH (pd.mk_ewm_state (Some w') ow' (S n'))) as [o [Ho Hlen]];
      [discriminate | cbn; lia |].
    exists (w' :: o). rewrite Ho. split; [reflexivity | simpl; now rewrite Hlen].
Qed.

(** Before any valid entry, the outputs are missing. *)
Lemma ewm_loop_unseen (alpha : Q) (k : nat) (vals : Series) :
  forall ow : Q,
    pd.ewm_loop alpha 1 (pd.mk_ewm_state None ow 0) (repeat None k ++ vals)
    = repeat None k ++ pd.ewm_loop alpha 1 (pd.mk_ewm_state None ow 0) vals.
Proof.
  induction k as [| k IH]; intros ow; [reflexivity |].
  cbn [repeat app pd.ewm_loop]. unfold pd.ewm_step at 1 2.
  cbn [pd.weighted pd.old_wt pd.nobs pd.is_observation plus].
  rewrite IH. reflexivity.
Qed.

Lemma weighted_mean_bounded (alpha ow w c lo hi u : Q) :
  0 < alpha -> 0 <= ow ->
  lo <= w <= hi -> lo <= c <= hi ->
  u == (ow * w + alpha * c) / (ow + alpha) ->
  lo <= u <= hi.
Proof.
  intros Ha Ho [Hw1 Hw2] [Hc1 Hc2] Hu. rewrite Hu.
  split; [apply Qle_shift_div_l | apply Qle_shift_div_r]; try lra; nra.
Qed.

Lemma ewm_output_weighted (st : pd.ewm_state) (u : Q) :
  pd.ewm_output 1 st = Some u -> pd.weighted st = Some u.
Proof.
  unfold pd.ewm_output. destruct (1 <=? pd.nobs st)%nat; [auto | discriminate].
Qed.

(** A step keeps the running mean within bounds that hold for the inputs,
    and the carried weight non-negative. *)
Lemma ewm_step_bounded (alpha lo hi : Q) (st : pd.ewm_state) (cur : option Q) :
  0 < alpha -> alpha <= 1 ->
  0 <= pd.old_wt st ->
  (forall w, pd.weighted st = Some w -> lo <= w <= hi) ->
  (forall c, cur = Some c -> lo <= c <= hi) ->
  0 <= pd.old_wt (pd.ewm_step alpha st cur)
  /\ forall w, pd.weighted (pd.ewm_step alpha st cur) = Some w -> lo <= w <= hi.
Proof.
  intros Ha Ha1 Ho Hw Hc.
  assert (How : 0 <= pd.old_wt st * (1 - alpha))
    by (apply Qmult_le_0_compat; lra).
  destruct (pd.weighted st) as [w |] eqn:Ew.
  - destruct cur as [c |].
    + destruct (ewm_step_mean alpha st w c Ha How Ew) as [w' [Es Hw']].
      rewrite Es. cbn [pd.old_wt pd.weighted]. split; [lra |].
      intros u Hu. injection Hu as <-.
      apply (weighted_mean_bounded alpha (pd.old_wt st * (1 - alpha))
               w c lo hi w' Ha How (Hw w eq_refl) (Hc c eq_refl) Hw').
    + unfold pd.ewm_step. rewrite Ew. cbn [pd.old_wt pd.weighted].
      split; [exact How |]. intros u Hu. injection Hu as <-. auto.
  - unfold pd.ewm_step. rewrite Ew.
    destruct cur as [c |]; cbn [pd.old_wt pd.weighted]; (split; [exact Ho |]).
    + intros u Hu. injection Hu as <-. auto.
    + discriminate.
Qed.

Lemma ewm_loop_bounded (alpha lo hi : Q) (vals : Series) :
  0 < alpha -> alpha <= 1 ->
  (forall v, In (Some v) vals -> lo <= v <= hi) ->
  forall st : pd.ewm_state,
    0 <= pd.old_wt st ->
    (forall w, pd.weighted st = Some w -> lo <= w <= hi) ->
    forall u, In (Some u) (pd.ewm_loop alpha 1 st vals) -> lo <= u <= hi.
Proof.
  intros Ha Ha1. induction vals as [| cur vals IH]; intros Hv st Ho Hw u Hu.
  - destruct Hu.
  - cbn [pd.ewm_loop] in Hu.
    destruct (ewm_step_bounded alpha lo hi st cur Ha Ha1 Ho Hw) as [Ho' Hw'].
    { intros c ->. apply Hv. now left. }
    destruct Hu as [Hu | Hu].
    + apply Hw'. now apply ewm_output_weighted.
    + apply (IH (fun v H => Hv v (or_intror H)) _ Ho' Hw' u Hu).
Qed.

Lemma affine_rel_image (k d : Q) (s : Series) :
  Forall2 (affine_rel k d) s (affine_series k d s).
Proof.
  induction s as [| [x |] s IH]; constructor; try exact IH.
  - cbn. apply Qeq_refl.
  - exact I.
Qed.

Lemma affine_rel_length (k d : Q) (a b : Series) :
  Forall2 (affine_rel k d) a b -> length a = length b.
Proof.
  induction 1; simpl; congruence.
Qed.

(** A step commutes with an affine change of the data. *)
Lemma ewm_step_affine (alpha k d : Q) (st st' : pd.ewm_state)
    (cur cur' : option Q) :
  0 < alpha -> alpha <= 1 ->
  0 <= pd.old_wt st ->
  pd.old_wt st' = pd.old_wt st ->
  pd.nobs st' = pd.nobs st ->
  affine_rel k d (pd.weighted st) (pd.weighted st') ->
  affine_rel k d cur cur' ->
  0 <= pd.old_wt (pd.ewm_step alpha st cur)
  /\ pd.old_wt (pd.ewm_step alpha st' cur') = pd.old_wt (pd.ewm_step alpha st cur)
  /\ pd.nobs (pd.ewm_step alpha st' cur') = pd.nobs (pd.ewm_step alpha st cur)
  /\ affine_rel k d (pd.weighted (pd.ewm_step alpha st cur))
       (pd.weighted (pd.ewm_step alpha st' cur')).
Proof.
  intros Ha Ha1 Ho Eo En Hw Hc.
  assert (How : 0 <= pd.old_wt st * (1 - alpha))
    by (apply Qmult_le_0_compat; lra).
  destruct (pd.weighted st) as [w |] eqn:Ew;
    destruct (pd.weighted st') as [w' |] eqn:Ew'; cbn in Hw; try contradiction;
    destruct cur as [c |]; destruct cur' as [c' |]; cbn in Hc; try contradiction.
  - destruct (ewm_step_mean alpha st w c Ha How Ew) as [u [Es Hu]].
    assert (How' : 0 <= pd.old_wt st' * (1 - alpha)) by (rewrite Eo; exact How).
    destruct (ewm_step_mean alpha st' w' c' Ha How' Ew') as [u' [Es' Hu']].
    rewrite Es, Es'. cbn [pd.old_wt pd.nobs pd.weighted affine_rel].
    split; [lra |]. split; [reflexivity |]. split; [now rewrite En |].
    rewrite Hu', Hu, Hw, Hc, Eo. field. lra.
  - unfold pd.ewm_step. rewrite Ew, Ew'.
    cbn [pd.old_wt pd.nobs pd.weighted affine_rel pd.is_observation].
    rewrite Eo, En. auto.
  - unfold pd.ewm_step. rewrite Ew, Ew'.
    cbn [pd.old_wt pd.nobs pd.weighted affine_rel pd.is_observation].
    rewrite Eo, En. auto.
  - unfold pd.ewm_step. rewrite Ew, Ew'.
    cbn [pd.old_wt pd.nobs pd.weighted affine_rel pd.is_observation].
    rewrite Eo, En. auto.
Qed.

Lemma ewm_output_affine (k d : Q) (st st' : pd.ewm_state) :
  pd.nobs st' = pd.nobs st ->
  affine_rel k d (pd.weighted st) (pd.weighted st') ->
  affine_rel k d (pd.ewm_output 1 st) (pd.ewm_output 1 st').
Proof.
  intros En Hw. unfold pd.ewm_output. rewrite En.
  destruct (1 <=? pd.nobs st)%nat; [exact Hw | exact I].
Qed.

Lemma ewm_loop_affine (alpha k d : Q) (vals vals' : Series) :
  0 < alpha -> alpha <= 1 ->
  Forall2 (affine_rel k d) vals vals' ->
  forall st st' : pd.ewm_state,
    0 <= pd.old_wt st ->
    pd.old_wt st' = pd.old_wt st ->
    pd.nobs st' = pd.nobs st ->
    affine_rel k d (pd.weighted st) (pd.weighted st') ->
    Forall2 (affine_rel k d)
      (pd.ewm_loop alpha 1 st vals) (pd.ewm_loop alpha 1 st' vals').
Proof.
  intros Ha Ha1. induction 1 as [| cur cur' vals vals' Hc _ IH];
    intros st st' Ho Eo En Hw; cbn [pd.ewm_loop]; constructor.
  - destruct (ewm_step_affine alpha k d st st' cur cur' Ha Ha1 Ho Eo En Hw Hc)
      as [_ [_ [En' Hw']]].
    now apply ewm_output_affine.
  - destruct (ewm_step_affine alpha k d st st' cur cur' Ha Ha1 Ho Eo En Hw Hc)
      as [Ho' [Eo' [En' Hw']]].
    now apply IH.
Qed.

(** [ema] respects an affine relation between two inputs. *)
Lemma ema_affine_rel (k d : Q) (s s' : Series) (span : Z) :
  (1 <= span)%Z ->
  Forall2 (affine_rel k d) s s' ->
  exists out out' : Series,
    ema (Some s) span = Ok out
    /\ ema (Some s') span = Ok out'
    /\ Forall2 (affine_rel k d) out out'.
Proof.
  intros Hs H. destruct (alpha_range span Hs) as [Ha Ha1].
  destruct H as [| v v' s s' Hv H].
  - exists [], []. repeat split. constructor.
  - unfold ema. cbn [absent_or_empty pd.empty values].
    rewrite !ewm_mean_ok by exact Hs.
    do 2 eexists. split; [reflexivity |]. split; [reflexivity |].
    unfold pd.ewm.
    assert (Ei : pd.is_observation v' = pd.is_observation v)
      by (destruct v, v'; cbn in Hv; try contradiction; reflexivity).
    rewrite Ei. constructor.
    + apply ewm_output_affine; [reflexivity | exact Hv].
    + apply ewm_loop_affine; cbn [pd.old_wt pd.nobs pd.weighted];
        try assumption; try reflexivity; lra.
Qed.

Lemma sub_affine (k d1 d2 d3 : Q) (a a' b b' : Series) :
  d3 == d1 - d2 ->
  Forall2 (affine_rel k d1) a a' ->
  Forall2 (affine_rel k d2) b b' ->
  Forall2 (affine_rel k d3) (pd.sub a b) (pd.sub a' b').
Proof.
  intros Hd Ha. revert b b'.
  induction Ha as [| x x' a a' Hx _ IH]; intros b b' Hb.
  - destruct Hb; constructor.
  - destruct Hb as [| y y' b b' Hy Hb]; [constructor |].
    cbn [pd.sub]. constructor; [| now apply IH].
    destruct x, x', y, y'; cbn in *; try contradiction; try exact I.
    rewrite Hx, Hy, Hd. ring.
Qed.

End EwmInvariants.

(** ** Further properties of [ema] and [macd] *)

Section EmaMacd.

Lemma ema_rejects (s : Series) (span : Z) :
  s <> [] -> (span < 1)%Z ->
  ema (Some s) span = Raise (ValueError "span must satisfy: span >= 1").
Proof.
  intros Hs Hspan. destruct s as [| v s]; [congruence |].
  unfold ema. cbn [absent_or_empty pd.empty values].
  unfold pd.ewm_mean, pd.get_center_of_mass.
  destruct (Z.ltb_spec span 1) as [_ | G]; [reflexivity | lia].
Qed.

Lemma macd_returns (s : Series) (fast slow signal : Z) :
  (1 <= fast)%Z -> (1 <= slow)%Z -> (1 <= signal)%Z ->
  exists e_fast e_slow signal_line : Series,
    ema (Some s) fast = Ok e_fast
    /\ ema (Some s) slow = Ok e_slow
    /\ ema (Some (pd.sub e_fast e_slow)) signal = Ok signal_line
    /\ macd (Some s) fast slow signal
       = Ok (pd.sub e_fast e_slow, signal_line,
             pd.sub (pd.sub e_fast e_slow) signal_line)
    /\ length e_fast = length s /\ length e_slow = length s
    /\ length signal_line = length s.
Proof.
  intros Hf Hsl Hsg.
  destruct (ema_ok s fast Hf) as [ef [Ef Lf]].
  destruct (ema_ok s slow Hsl) as [es [Es Ls]].
  destruct (ema_ok (pd.sub ef es) signal Hsg) as [sg [Eg Lg]].
  exists ef, es, sg. repeat (split; [assumption |]).
  split; [| repeat split; try assumption; rewrite Lg, sub_length; lia].
  destruct s as [| v s].
  - cbv in Ef, Es. injection Ef as <-. injection Es as <-.
    cbv in Eg. injection Eg as <-. reflexivity.
  - unfold macd. cbn [absent_or_empty pd.empty].
    rewrite Ef, Es. cbn [bind]. rewrite Eg. reflexivity.
Qed.

End EmaMacd.

(** X1: ema raises (pandas' ValueError for the span) exactly when the series
    is non-empty and span < 1; an empty series is answered before the span
    is looked at. *)
Theorem X1_ema_raises_iff (s : Series) (span : Z) :
  (exists e : exn, ema (Some s) span = Raise e)
  <-> (s <> [] /\ (span < 1)%Z).
Proof.
  split.
  - intros [e He]. destruct s as [| v s]; [discriminate He |].
    split; [discriminate |].
    destruct (Z.ltb_spec span 1) as [L | G]; [exact L |].
    destruct (ema_ok (v :: s) span G) as [out [E _]]. congruence.
  - intros [Hs Hspan]. eexists. now apply ema_rejects.
Qed.

(** X2: macd raises exactly when the series is non-empty and one of the
    three periods is below 1; otherwise it returns its three series. *)
Theorem X2_macd_raises_iff (s : Series) (fast slow signal : Z) :
  (exists e : exn, macd (Some s) fast slow signal = Raise e)
  <-> (s <> [] /\ ((fast < 1)%Z \/ (slow < 1)%Z \/ (signal < 1)%Z)).
Proof.
  split.
  - intros [e He]. destruct s as [| v s]; [discriminate He |].
    split; [discriminate |].
    destruct (Z.ltb_spec fast 1) as [| Hf]; [now left |].
    destruct (Z.ltb_spec slow 1) as [| Hsl]; [now right; left |].
    destruct (Z.ltb_spec signal 1) as [| Hsg]; [now right; right |].
    exfalso.
    destruct (macd_returns (v :: s) fast slow signal Hf Hsl Hsg)
      as [ef [es [sg [_ [_ [_ [E _]]]]]]].
    congruence.
  - intros [Hs H]. destruct s as [| v s]; [congruence |].
    unfold macd. cbn [absent_or_empty pd.empty].
    destruct (Z.ltb_spec fast 1) as [Lf | Hf].
    { rewrite (ema_rejects (v :: s) fast) by (discriminate || lia).
      eexists; reflexivity. }
    destruct (ema_ok (v :: s) fast Hf) as [ef [Ef Lf]]. rewrite Ef. cbn [bind].
    destruct (Z.ltb_spec slow 1) as [Ls | Hsl].
    { rewrite (ema_rejects (v :: s) slow) by (discriminate || lia).
      eexists; reflexivity. }
    destruct (ema_ok (v :: s) slow Hsl) as [es [Es Ls]]. rewrite Es. cbn [bind].
    assert (Hsg : (signal < 1)%Z) by lia.
    assert (Hm : pd.sub ef es <> []).
    { intros E. apply (f_equal (@length _)) in E.
      rewrite sub_length, Lf, Ls in E. simpl in E. lia. }
    rewrite (ema_rejects (pd.sub ef es) signal Hm Hsg).
    eexists; reflexivity.
Qed.

(** X3: with span >= 1, ema is missing exactly on the leading run of missing
    inputs: it starts at the first valid entry, with that entry, and is a
    number at every later index, whatever is missing there; a series of
    missing entries only comes back as it is. *)
Theorem X3_ema_fills_forward (span : Z) (k : nat) :
  (1 <= span)%Z ->
  ema (Some (repeat None k)) span = Ok (repeat None k)
  /\ forall (v : Q) (rest : Series),
       exists o : list Q,
         ema (Some (repeat None k ++ Some v :: rest)) span
         = Ok (repeat None k ++ Some v :: all_valid o)
         /\ length o = length rest.
Proof.
  intros Hs. split.
  - destruct k as [| k]; [reflexivity |].
    unfold ema. cbn [repeat absent_or_empty pd.empty values].
    rewrite ewm_mean_ok by exact Hs. unfold pd.ewm.
    cbn [pd.is_observation].
    rewrite <- (app_nil_r (repeat None k)) at 1.
    rewrite ewm_loop_unseen, app_nil_r. reflexivity.
  - intros v rest. destruct k as [| k].
    + unfold ema. cbn [repeat app absent_or_empty pd.empty values].
      rewrite ewm_mean_ok by exact Hs. unfold pd.ewm.
      cbn [pd.is_observation].
      destruct (ewm_loop_seen (1 / (1 + (inject_Z span - 1) / 2)) rest
                  (pd.mk_ewm_state (Some v) 1 1)) as [o [Ho Hlen]];
        [discriminate | cbn; lia |].
      exists o. rewrite Ho. split; [reflexivity | exact Hlen].
    + unfold ema. cbn [repeat app absent_or_empty pd.empty values].
      rewrite ewm_mean_ok by exact Hs. unfold pd.ewm.
      cbn [pd.is_observation].
      rewrite ewm_loop_unseen. cbn [pd.ewm_loop].
      unfold pd.ewm_step at 1 2.
      cbn [pd.weighted pd.old_wt pd.nobs pd.is_observation plus].
      destruct (ewm_loop_seen (1 / (1 + (inject_Z span - 1) / 2)) rest
                  (pd.mk_ewm_state (Some v) 1 1)) as [o [Ho Hlen]];
        [discriminate | cbn; lia |].
      exists o. rewrite Ho. split; [reflexivity | exact Hlen].
Qed.

(** Three missing entries, then 2, a gap, and 6. *)
Lemma X3_ema_fills_forward_witness :
  (1 <= 3)%Z
  /\ exists o : list Q,
       ema (Some (repeat None 3 ++ Some 2 :: [None; Some 6])) 3
       = Ok (repeat None 3 ++ Some 2 :: all_valid o)
       /\ length o = 2%nat.
Proof.
  split; [lia |].
  apply (proj2 (X3_ema_fills_forward 3 3 ltac:(lia)) 2 [None; Some 6]).
Defined.

(** X4: with span >= 1, every number ema returns lies between any two bounds
    that hold for the valid inputs: the average never leaves the range of
    the prices, with or without missing entries. *)
Theorem X4_ema_within_bounds (s : Series) (span : Z) (lo hi : Q) :
  (1 <= span)%Z ->
  (forall v : Q, In (Some v) s -> lo <= v <= hi) ->
  exists out : Series,
    ema (Some s) span = Ok out
    /\ length out = length s
    /\ forall u : Q, In (Some u) out -> lo <= u <= hi.
Proof.
  intros Hs Hv. destruct (alpha_range span Hs) as [Ha Ha1].
  destruct (ema_ok s span Hs) as [out [E L]].
  exists out. split; [exact E |]. split; [exact L |].
  destruct s as [| v0 s].
  - cbv in E. injection E as <-. intros u [].
  - unfold ema in E. cbn [absent_or_empty pd.empty values] in E.
    rewrite ewm_mean_ok in E by exact Hs. injection E as <-.
    unfold pd.ewm. intros u [Hu | Hu].
    + apply ewm_output_weighted in Hu. cbn [pd.weighted] in Hu.
      apply Hv. left. exact Hu.
    + apply (ewm_loop_bounded _ lo hi s Ha Ha1
               (fun v H => Hv v (or_intror H)) _) in Hu; [exact Hu | |].
      * cbn [pd.old_wt]. lra.
      * cbn [pd.weighted]. intros w ->. apply Hv. now left.
Qed.

(** Prices between 4 and 8 with a gap, span 3. *)
Lemma X4_ema_within_bounds_witness :
  (1 <= 3)%Z
  /\ (forall v : Q, In (Some v) series_with_gap -> 4 <= v <= 8)
  /\ exists out : Series,
       ema (Some series_with_gap) 3 = Ok out
       /\ length out = length series_with_gap
       /\ forall u : Q, In (Some u) out -> 4 <= u <= 8.
Proof.
  assert (H : forall v : Q, In (Some v) series_with_gap -> 4 <= v <= 8).
  { intros v [E | [E | [E | []]]]; try discriminate E;
      injection E as <-; split; discriminate. }
  split; [lia |]. split; [exact H |].
  apply (X4_ema_within_bounds series_with_gap 3 4 8); [lia | exact H].
Defined.

(** X5: ema commutes with an affine change of the prices: for span >= 1,
    the ema of [k * s + d] is [k * ema(s) + d] at every index, and is missing
    where the ema of [s] is. *)
Theorem X5_ema_affine (s : Series) (span : Z) (k d : Q) :
  (1 <= span)%Z ->
  exists out out' : Series,
    ema (Some s) span = Ok out
    /\ ema (Some (affine_series k d s)) span = Ok out'
    /\ Forall2 (affine_rel k d) out out'.
Proof.
  intros Hs. apply ema_affine_rel; [exact Hs | apply affine_rel_image].
Qed.

(** The series [4, NaN, 8], doubled and raised by 1. *)
Lemma X5_ema_affine_witness :
  (1 <= 3)%Z
  /\ exists out out' : Series,
       ema (Some series_with_gap) 3 = Ok out
       /\ ema (Some (affine_series 2 1 series_with_gap)) 3 = Ok out'
       /\ Forall2 (affine_rel 2 1) out out'.
Proof.
  split; [lia |].
  apply (X5_ema_affine series_with_gap 3 2 1). lia.
Defined.

(** X6: the three MACD series ignore an offset of the prices and scale with
    them: for periods >= 1, each of macd_line, signal_line and histogram of
    [k * s + d] is [k] times that of [s] at every index. *)
Theorem X6_macd_offset_free (s : Series) (fast slow signal : Z) (k d : Q) :
  (1 <= fast)%Z -> (1 <= slow)%Z -> (1 <= signal)%Z ->
  exists m g h m' g' h' : Series,
    macd (Some s) fast slow signal = Ok (m, g, h)
    /\ macd (Some (affine_series k d s)) fast slow signal = Ok (m', g', h')
    /\ Forall2 (affine_rel k 0) m m'
    /\ Forall2 (affine_rel k 0) g g'
    /\ Forall2 (affine_rel k 0) h h'.
Proof.
  intros Hf Hsl Hsg.
  destruct (macd_returns s fast slow signal Hf Hsl Hsg)
    as [ef [es [sg [Ef [Es [Eg [Em _]]]]]]].
  destruct (macd_returns (affine_series k d s) fast slow signal Hf Hsl Hsg)
    as [ef' [es' [sg' [Ef' [Es' [Eg' [Em' _]]]]]]].
  destruct (ema_affine_rel k d s (affine_series k d s) fast Hf
              (affine_rel_image k d s)) as [a [a' [Ea [Ea' Ra]]]].
  destruct (ema_affine_rel k d s (affine_series k d s) slow Hsl
              (affine_rel_image k d s)) as [b [b' [Eb [Eb' Rb]]]].
  assert (a = ef) by congruence. assert (a' = ef') by congruence.
  assert (b = es) by congruence. assert (b' = es') by congruence.
  subst a a' b b'.
  assert (Rm : Forall2 (affine_rel k 0) (pd.sub ef es) (pd.sub ef' es'))
    by (apply (sub_affine k d d 0); [ring | exact Ra | exact Rb]).
  destruct (ema_affine_rel k 0 _ _ signal Hsg Rm) as [c [c' [Ec [Ec' Rc]]]].
  assert (c = sg) by congruence. assert (c' = sg') by congruence.
  subst c c'.
  do 6 eexists. split; [exact Em |]. split; [exact Em' |].
  split; [exact Rm |]. split; [exact Rc |].
  apply (sub_affine k 0 0 0); [ring | exact Rm | exact Rc].
Qed.

(** The end-to-end series moved up by 100, default periods. *)
Lemma X6_macd_offset_free_witness :
  (1 <= default_fast)%Z /\ (1 <= default_slow)%Z /\ (1 <= default_signal)%Z
  /\ exists m g h m' g' h' : Series,
       macd (Some example_series) default_fast default_slow default_signal
       = Ok (m, g, h)
       /\ macd (Some (affine_series 1 100 example_series))
            default_fast default_slow default_signal
          = Ok (m', g', h')
       /\ Forall2 (affine_rel 1 0) m m'
       /\ Forall2 (affine_rel 1 0) g g'
       /\ Forall2 (affine_rel 1 0) h h'.
Proof.
  split; [unfold default_fast; lia |].
  split; [unfold default_slow; lia |].
  split; [unfold default_signal; lia |].
  apply (X6_macd_offset_free example_series
           default_fast default_slow default_signal 1 100);
    [unfold default_fast; lia | unfold default_slow; lia
     | unfold default_signal; lia].
Defined.

(** ** Further properties of the windowed summaries *)

Section WindowsMore.

Lemma In_skipn {A : Type} (x : A) (n : nat) (l : list A) :
  In x (skipn n l) -> In x l.
Proof.
  intros H. rewrite <- (firstn_skipn n l). apply in_or_app. now right.
Qed.

Lemma skipn_incl_le {A : Type} (a b : nat) (l : list A) :
  (b <= a)%nat -> incl (skipn a l) (skipn b l).
Proof.
  intros Hab x Hx.
  replace a with ((a - b) + b)%nat in Hx by lia.
  rewrite <- skipn_skipn in Hx. now apply In_skipn in Hx.
Qed.

Lemma tail_incl {A : Type} (w1 w2 : Z) (l : list A) :
  (0 < w1)%Z -> (w1 <= w2)%Z -> incl (pd.tail w1 l) (pd.tail w2 l).
Proof.
  intros H1 H12. rewrite !tail_positive by lia.
  apply skipn_incl_le. lia.
Qed.

Lemma In_dropna (v : Q) (s : Series) : In v (pd.dropna s) <-> In (Some v) s.
Proof.
  induction s as [| [x |] s IH]; simpl.
  - tauto.
  - rewrite IH. split; intros [E | H]; auto; left; congruence.
  - rewrite IH. split; [auto | intros [E | H]; [discriminate | exact H]].
Qed.

Lemma dropna_length_le (s : Series) : (length (pd.dropna s) <= length s)%nat.
Proof.
  induction s as [| [x |] s IH]; simpl; lia.
Qed.

Lemma tail_length_le {A : Type} (w : Z) (l : list A) :
  (0 <= w)%Z -> (length (pd.tail w l) <= Z.to_nat w)%nat.
Proof.
  intros Hw. unfold pd.tail.
  destruct (Z.eqb_spec w 0) as [-> | N]; [simpl; lia |].
  destruct (Z.ltb_spec 0 w) as [_ | L]; [| lia].
  rewrite length_skipn. lia.
Qed.

Lemma tail_map {A B : Type} (g : A -> B) (w : Z) (l : list A) :
  pd.tail w (map g l) = map g (pd.tail w l).
Proof.
  unfold pd.tail. rewrite length_map.
  destruct (w =? 0)%Z; [reflexivity |].
  destruct (0 <? w)%Z; apply skipn_map.
Qed.

Lemma dropna_affine (k d : Q) (s : Series) :
  pd.dropna (affine_series k d s) = map (fun v => k * v + d) (pd.dropna s).
Proof.
  induction s as [| [x |] s IH]; simpl; [reflexivity | now rewrite IH | exact IH].
Qed.

Lemma classify_proper (a b tol : Q) :
  a == b -> classify a tol = classify b tol.
Proof.
  intros E. unfold classify, fgt, flt.
  rewrite (Qleb_comp a b E tol tol (Qeq_refl tol)).
  rewrite (Qleb_comp (- tol) (- tol) (Qeq_refl (- tol)) a b E).
  reflexivity.
Qed.

Lemma classify_mirror (x tol : Q) :
  0 <= tol ->
  (classify x tol = "Up"%string -> classify (- x) tol = "Down"%string)
  /\ (classify x tol = "Down"%string -> classify (- x) tol = "Up"%string)
  /\ (classify x tol = "Sideways"%string
      -> classify (- x) tol = "Sideways"%string).
Proof.
  intros Ht. unfold classify at 1 3 5.
  destruct (fgt x tol) eqn:E1.
  - apply fgt_true in E1.
    repeat split; try discriminate. intros _. apply classify_down; lra.
  - apply fgt_false in E1. destruct (flt x (- tol)) eqn:E2.
    + apply flt_true in E2.
      repeat split; try discriminate. intros _. apply classify_up; lra.
    + apply flt_false in E2.
      repeat split; try discriminate. intros _. apply classify_sideways; lra.
Qed.

End WindowsMore.

(** The last three entries of [7, NaN, 9, NaN] hold the point 9. *)
Lemma support_resistance_extrema_witness :
  In 9 (pd.dropna (pd.tail 3 [Some 7; None; Some 9; None]))
  /\ fst (support_resistance (Some [Some 7; None; Some 9; None]) 3) <= 9
  /\ 9 <= snd (support_resistance (Some [Some 7; None; Some 9; None]) 3)
  /\ In (fst (support_resistance (Some [Some 7; None; Some 9; None]) 3))
        (pd.dropna (pd.tail 3 [Some 7; None; Some 9; None]))
  /\ In (snd (support_resistance (Some [Some 7; None; Some 9; None]) 3))
        (pd.dropna (pd.tail 3 [Some 7; None; Some 9; None])).
Proof.
  assert (H : In 9 (pd.dropna (pd.tail 3 [Some 7; None; Some 9; None])))
    by (left; reflexivity).
  split; [exact H |].
  apply (support_resistance_extrema [Some 7; None; Some 9; None] 3 9 H).
Defined.

(** X8: widening the window can only lower the support and raise the
    resistance: for 0 < w1 <= w2, when the narrower window holds a valid
    point, support(w2) <= support(w1) and resistance(w1) <= resistance(w2). *)
Theorem X8_support_resistance_widening (s : Series) (w1 w2 : Z) :
  (0 < w1)%Z -> (w1 <= w2)%Z ->
  pd.dropna (pd.tail w1 s) <> [] ->
  fst (support_resistance (Some s) w2) <= fst (support_resistance (Some s) w1)
  /\ snd (support_resistance (Some s) w1)
     <= snd (support_resistance (Some s) w2).
Proof.
  intros H1 H12 Hne. rewrite !support_resistance_selection.
  assert (Hincl : incl (pd.dropna (pd.tail w1 s)) (pd.dropna (pd.tail w2 s))).
  { intros u Hu. apply In_dropna. apply In_dropna in Hu.
    now apply (tail_incl w1 w2 s H1 H12). }
  destruct (pd.dropna (pd.tail w1 s)) as [| v vs]; [congruence |].
  destruct (pd.dropna (pd.tail w2 s)) as [| v' vs'].
  - destruct (Hincl v (or_introl eq_refl)).
  - cbn [levels_of fst snd]. split.
    + apply min_lower_bound. apply Hincl. apply min_attained.
    + apply max_upper_bound. apply Hincl. apply max_attained.
Qed.

(** The end-to-end series, windows 5 and 8. *)
Lemma X8_support_resistance_widening_witness :
  (0 < 5)%Z /\ (5 <= 8)%Z
  /\ pd.dropna (pd.tail 5 example_series) <> []
  /\ fst (support_resistance (Some example_series) 8)
     <= fst (support_resistance (Some example_series) 5)
  /\ snd (support_resistance (Some example_series) 5)
     <= snd (support_resistance (Some example_series) 8).
Proof.
  assert (H : pd.dropna (pd.tail 5 example_series) <> [])
    by (vm_compute; discriminate).
  split; [lia |]. split; [lia |]. split; [exact H |].
  apply (X8_support_resistance_widening example_series 5 8); [lia | lia | exact H].
Defined.

(** X11: mirroring the prices mirrors the trend: with a tolerance >= 0 and
    a fit that is odd in the data on the selected points (np.polyfit is: its
    solve is linear in y and negation is exact in floating point), over [-s]
    the label "Up" becomes "Down", "Down" becomes "Up" and "Sideways"
    stays. *)
Theorem X11_trend_mirror (polyfit : fit_function) (s : Series) (window : Z)
    (tol : Q) :
  0 <= tol ->
  let y := pd.dropna (pd.tail window s) in
  fst (polyfit (np.arange (length y)) (map (fun v => - (1) * v + 0) y))
  == - fst (polyfit (np.arange (length y)) y) ->
  let label := fst (trend_direction polyfit (Some s) window tol) in
  let mirrored :=
    fst (trend_direction polyfit (Some (affine_series (- (1)) 0 s)) window
           tol) in
  (label = "Up"%string -> mirrored = "Down"%string)
  /\ (label = "Down"%string -> mirrored = "Up"%string)
  /\ (label = "Sideways"%string -> mirrored = "Sideways"%string).
Proof.
  intros Ht y Hodd label mirrored. subst label mirrored.
  rewrite !trend_direction_selection. unfold affine_series.
  rewrite tail_map. fold (affine_series (- (1)) 0 (pd.tail window s)).
  rewrite dropna_affine. fold y.
  unfold trend_of. rewrite length_map.
  destruct (length y <? 2)%nat; cbn [fst snd].
  - repeat split; auto; discriminate.
  - rewrite (classify_proper _ _ tol Hodd).
    now apply classify_mirror.
Qed.

(** The end-to-end series, rising, and its mirror image, falling, for a fit
    without rounding. *)
Lemma X11_trend_mirror_witness :
  0 <= default_tol
  /\ fst (least_squares_line
            (np.arange (length (pd.dropna (pd.tail 5 example_series))))
            (map (fun v => - (1) * v + 0)
               (pd.dropna (pd.tail 5 example_series))))
     == - fst (least_squares_line
                 (np.arange (length (pd.dropna (pd.tail 5 example_series))))
                 (pd.dropna (pd.tail 5 example_series)))
  /\ fst (trend_direction least_squares_line (Some example_series) 5
            default_tol) = "Up"%string
  /\ fst (trend_direction least_squares_line
            (Some (affine_series (- (1)) 0 example_series)) 5 default_tol)
     = "Down"%string.
Proof.
  assert (Ht : 0 <= default_tol) by discriminate.
  assert (Ho : fst (least_squares_line
                      (np.arange
                         (length (pd.dropna (pd.tail 5 example_series))))
                      (map (fun v => - (1) * v + 0)
                         (pd.dropna (pd.tail 5 example_series))))
               == - fst (least_squares_line
                           (np.arange
                              (length (pd.dropna (pd.tail 5 example_series))))
                           (pd.dropna (pd.tail 5 example_series))))
    by (vm_compute; reflexivity).
  assert (H : fst (trend_direction least_squares_line (Some example_series) 5
                     default_tol) = "Up"%string) by (vm_compute; reflexivity).
  split; [exact Ht |]. split; [exact Ho |]. split; [exact H |].
  apply (proj1 (X11_trend_mirror least_squares_line example_series 5
                  default_tol Ht Ho) H).
Defined.

(** X12: the label of trend_direction can be read backwards: it is one of
    the three labels; "Up" is only returned over at least 2 valid points
    with slope > tol, "Down" only over at least 2 valid points with
    slope < -tol (and slope <= tol); "Sideways" means fewer than 2 valid
    points (slope 0.0) or a slope within the tolerance. *)
Theorem X12_trend_label_sound (polyfit : fit_function) (s : Series)
    (window : Z) (tol : Q) :
  let y := pd.dropna (pd.tail window s) in
  let label := fst (trend_direction polyfit (Some s) window tol) in
  let slope := snd (trend_direction polyfit (Some s) window tol) in
  (label = "Up"%string \/ label = "Down"%string \/ label = "Sideways"%string)
  /\ (label = "Up"%string -> (2 <= length y)%nat /\ tol < slope)
  /\ (label = "Down"%string ->
        (2 <= length y)%nat /\ slope < - tol /\ slope <= tol)
  /\ (label = "Sideways"%string ->
        ((length y < 2)%nat /\ slope = 0)
        \/ ((2 <= length y)%nat /\ slope <= tol /\ - tol <= slope)).
Proof.
  intros y label slope. subst label slope.
  rewrite trend_direction_selection. fold y. unfold trend_of.
  destruct (Nat.ltb_spec (length y) 2) as [L | G]; cbn [fst snd].
  - split; [auto |]. repeat split; try discriminate. intros _. left. auto.
  - unfold classify.
    destruct (fgt _ tol) eqn:E1.
    + apply fgt_true in E1.
      split; [auto |]. repeat split; try discriminate; auto.
    + apply fgt_false in E1. destruct (flt _ (- tol)) eqn:E2.
      * apply flt_true in E2.
        split; [auto |]. repeat split; try discriminate; auto.
      * apply flt_false in E2.
        split; [auto |]. repeat split; try discriminate; auto.
Qed.

(** The end-to-end series is labelled "Up" by a fit without rounding: its
    slope exceeds the tolerance. *)
Lemma X12_trend_label_sound_witness :
  fst (trend_direction least_squares_line (Some example_series) 5 default_tol)
  = "Up"%string
  /\ (2 <= length (pd.dropna (pd.tail 5 example_series)))%nat
  /\ default_tol
     < snd (trend_direction least_squares_line (Some example_series) 5
              default_tol).
Proof.
  assert (H : fst (trend_direction least_squares_line (Some example_series) 5
                     default_tol) = "Up"%string) by (vm_compute; reflexivity).
  split; [exact H |].
  exact (proj1 (proj2 (X12_trend_label_sound least_squares_line
                         example_series 5 default_tol)) H).
Defined.

(** X13: a strictly decreasing linear series of step [step] and length
    >= window is labelled "Down", with a slope within the rounding error of
    the fit of [step], provided window >= 2, tol >= 0 and [step] is below
    -tol by more than that error. *)
Theorem X13_decreasing_line_down (polyfit : fit_function) (base step : Q)
    (n : nat) (window : Z) (tol err : Q) :
  (2 <= window)%Z -> (window <= Z.of_nat n)%Z ->
  0 <= tol ->
  fit_error polyfit
    (pd.dropna (pd.tail window (linear_series base step n))) <= err ->
  step + err < - tol ->
  exists slope : Q,
    trend_direction polyfit (Some (linear_series base step n)) window tol
    = ("Down"%string, slope)
    /\ Qabs (slope - step) <= err.
Proof.
  intros Hw Hn Ht He Hstep.
  rewrite trend_direction_selection.
  set (y := pd.dropna (pd.tail window (linear_series base step n))) in *.
  assert (Ey : y = line_values base step (n - Z.to_nat window)
                     (Z.to_nat window)).
  { subst y. unfold linear_series.
    now rewrite tail_all_valid, tail_line_values by lia. }
  destruct (fit_error_bounds polyfit y err He) as [Hlo Hhi].
  assert (X : fst (least_squares_line (np.arange (length y)) y) == step).
  { rewrite Ey, line_values_length. apply slope_of_line. lia. }
  rewrite X in Hlo, Hhi.
  unfold trend_of.
  assert (L : (length y <? 2)%nat = false).
  { rewrite Ey, line_values_length. apply Nat.ltb_ge. lia. }
  rewrite L. eexists. split.
  - f_equal. apply classify_down; lra.
  - apply Qabs_Qle_condition. split; lra.
Qed.

(** The line 20 - i, eleven points, window 5, default tolerance, for a fit
    without rounding. *)
Lemma X13_decreasing_line_down_witness :
  (2 <= 5)%Z /\ (5 <= Z.of_nat 11)%Z /\ 0 <= default_tol
  /\ fit_error least_squares_line
       (pd.dropna (pd.tail 5 (linear_series 20 (- (1)) 11))) <= 0
  /\ - (1) + 0 < - default_tol
  /\ exists slope : Q,
       trend_direction least_squares_line
         (Some (linear_series 20 (- (1)) 11)) 5 default_tol
       = ("Down"%string, slope)
       /\ Qabs (slope - - (1)) <= 0.
Proof.
  assert (He : fit_error least_squares_line
                 (pd.dropna (pd.tail 5 (linear_series 20 (- (1)) 11))) <= 0)
    by (vm_compute; discriminate).
  split; [lia |]. split; [lia |].
  split; [discriminate |]. split; [exact He |]. split; [reflexivity |].
  apply (X13_decreasing_line_down least_squares_line 20 (- (1)) 11 5
           default_tol 0);
    [lia | lia | discriminate | exact He | reflexivity].
Defined.

(** X14: at most [window] points are ever selected, so with window 0 or 1
    trend_direction returns ("Sideways", 0.0) for every series, and with
    window 0 support_resistance returns (0.0, 0.0). *)
Theorem X14_small_window (polyfit : fit_function) (s : Series) (window : Z)
    (tol : Q) :
  (0 <= window)%Z ->
  (length (pd.dropna (pd.tail window s)) <= Z.to_nat window)%nat
  /\ ((window <= 1)%Z ->
        trend_direction polyfit (Some s) window tol = ("Sideways"%string, 0))
  /\ (window = 0%Z -> support_resistance (Some s) window = (0, 0)).
Proof.
  intros Hw.
  assert (L : (length (pd.dropna (pd.tail window s)) <= Z.to_nat window)%nat).
  { eapply Nat.le_trans; [apply dropna_length_le | now apply tail_length_le]. }
  split; [exact L |]. split.
  - intros H1. rewrite trend_direction_selection. unfold trend_of.
    destruct (Nat.ltb_spec (length (pd.dropna (pd.tail window s))) 2)
      as [_ | G]; [reflexivity | lia].
  - intros ->. rewrite support_resistance_selection. reflexivity.
Qed.

(** The end-to-end series with window 1. *)
Lemma X14_small_window_witness :
  (0 <= 1)%Z /\ (1 <= 1)%Z
  /\ trend_direction least_squares_line (Some example_series) 1 default_tol
     = ("Sideways"%string, 0).
Proof.
  split; [lia |]. split; [lia |].
  apply (proj1 (proj2 (X14_small_window least_squares_line example_series 1
                         default_tol ltac:(lia)))).
  lia.
Defined.

(** ** The callers: percentage change, snapshot tables, the analysis loop *)

Section Callers.

Lemma ema_all_valid (xs : list Q) (span : Z) :
  xs <> [] -> (1 <= span)%Z ->
  exists o : list Q,
    ema (Some (all_valid xs)) span = Ok (all_valid o)
    /\ length o = length xs.
Proof.
  intros Hxs Hs. destruct xs as [| x xs]; [congruence |].
  unfold ema. cbn [all_valid map absent_or_empty pd.empty values].
  fold (all_valid xs).
  rewrite ewm_mean_ok by exact Hs. unfold pd.ewm. cbn [pd.is_observation].
  destruct (ewm_loop_valid (1 / (1 + (inject_Z span - 1) / 2)) xs x 0)
    as [o [Ho [Hlen _]]].
  exists (x :: o). rewrite Ho. split; [reflexivity | simpl; now rewrite Hlen].
Qed.

Lemma sub_all_valid (a : list Q) :
  forall b : list Q,
    length a = length b ->
    exists c : list Q,
      pd.sub (all_valid a) (all_valid b) = all_valid c
      /\ length c = length a
      /\ (a <> [] -> last c 0 = last a 0 - last b 0).
Proof.
  induction a as [| x a IH]; intros [| y b] Hlen; simpl in Hlen; try lia.
  - exists []. split; [reflexivity | split; [reflexivity | congruence]].
  - destruct (IH b) as [c [Hc [Lc Hl]]]; [lia |].
    exists ((x - y) :: c). cbn [all_valid map pd.sub pd.fsub].
    fold (all_valid a) (all_valid b). rewrite Hc.
    split; [reflexivity |]. split; [simpl; now rewrite Lc |].
    intros _. destruct a as [| x' a].
    + destruct b; [| simpl in Hlen; lia].
      destruct c; [reflexivity | simpl in Lc; lia].
    + destruct b as [| y' b]; [simpl in Hlen; lia |].
      destruct c as [| z c]; [simpl in Lc; lia |].
      cbn [last]. cbn [last] in Hl. apply Hl. discriminate.
Qed.

Lemma last_all_valid (o : list Q) :
  forall x : Q, last (all_valid (x :: o)) None = Some (last (x :: o) 0).
Proof.
  induction o as [| y o IH]; intros x; [reflexivity |].
  change (last (all_valid (x :: y :: o)) None)
    with (last (all_valid (y :: o)) None).
  change (last (x :: y :: o) 0) with (last (y :: o) 0).
  apply IH.
Qed.

Lemma iloc_last_all_valid (o : list Q) :
  o <> [] -> main.iloc_last (all_valid o) = main.Done (Some (last o 0)).
Proof.
  intros Ho. destruct o as [| x o]; [congruence |].
  unfold main.iloc_last. cbn [all_valid map]. f_equal.
  apply (last_all_valid o x).
Qed.

(** On numbers only, with periods >= 1, macd returns numbers only, and the
    last histogram value is the last MACD value minus the last signal. *)
Lemma macd_all_valid (xs : list Q) (fast slow signal : Z) :
  xs <> [] -> (1 <= fast)%Z -> (1 <= slow)%Z -> (1 <= signal)%Z ->
  exists m g h : list Q,
    macd (Some (all_valid xs)) fast slow signal
    = Ok (all_valid m, all_valid g, all_valid h)
    /\ length m = length xs /\ length g = length xs /\ length h = length xs
    /\ last h 0 = last m 0 - last g 0.
Proof.
  intros Hxs Hf Hsl Hsg.
  destruct (ema_all_valid xs fast Hxs Hf) as [ef [Ef Lf]].
  destruct (ema_all_valid xs slow Hxs Hsl) as [es [Es Ls]].
  destruct (sub_all_valid ef es) as [m [Hm [Lm _]]]; [congruence |].
  assert (Hmne : m <> []).
  { destruct m; [| discriminate]. destruct xs; [congruence |].
    simpl in *. lia. }
  destruct (ema_all_valid m signal Hmne Hsg) as [g [Eg Lg]].
  destruct (sub_all_valid m g) as [h [Hh [Lh Hl]]]; [congruence |].
  exists m, g, h.
  split; [| repeat split; try congruence; now apply Hl].
  unfold macd. destruct xs as [| x xs]; [congruence |].
  cbn [all_valid map absent_or_empty pd.empty].
  change (Some x :: map Some xs) with (all_valid (x :: xs)).
  rewrite Ef, Es. cbn [bind]. rewrite Hm, Eg. cbn [bind]. now rewrite Hh.
Qed.

Lemma dropna_existsb (s : Series) :
  pd.dropna s = [] <-> existsb pd.is_observation s = false.
Proof.
  induction s as [| [x |] s IH]; simpl.
  - tauto.
  - split; discriminate.
  - exact IH.
Qed.

Lemma float_gt_difference (m g : Q) :
  main.float_gt (Some m) (Some g) = fgt (m - g) 0.
Proof.
  cbn [main.float_gt].
  destruct (fgt m g) eqn:E1; destruct (fgt (m - g) 0) eqn:E2; try reflexivity.
  - apply fgt_true in E1. apply fgt_false in E2. lra.
  - apply fgt_false in E1. apply fgt_true in E2. lra.
Qed.

Section WithFormat.

Variable fmt2 : option Q -> string.
Variable fmt4 : option Q -> string.
Variable polyfit : fit_function.

Lemma ta_section_skipped (close : Series) :
  pd.dropna close = [] ->
  main.ta_section fmt2 fmt4 polyfit close = main.Done None.
Proof.
  intros H. unfold main.ta_section. rewrite H.
  destruct (pd.empty close); reflexivity.
Qed.

Lemma ta_section_built (close : Series) :
  pd.dropna close <> [] ->
  exists (e9 e15 m g h : Q) (macd_line signal_line histo : Series),
    macd (Some (all_valid (pd.dropna close)))
      default_fast default_slow default_signal
    = Ok (macd_line, signal_line, histo)
    /\ last macd_line None = Some m
    /\ last signal_line None = Some g
    /\ last histo None = Some h
    /\ h = m - g
    /\ main.ta_section fmt2 fmt4 polyfit close
       = main.Done (Some
           [ ("Support (20d min)",
              fmt2 (Some (fst (levels_of (trailing_valid 20 close)))));
             ("Resistance (20d max)",
              fmt2 (Some (snd (levels_of (trailing_valid 20 close)))));
             ("Trendline Direction",
              fst (trend_of polyfit (trailing_valid 10 close) default_tol)
              ++ " (slope "
              ++ fmt4 (Some (snd (trend_of polyfit (trailing_valid 10 close)
                                    default_tol)))
              ++ ")");
             ("EMA(9) vs EMA(15)",
              fmt2 (Some e9) ++ " vs " ++ fmt2 (Some e15));
             ("MACD (last)", fmt2 (Some m));
             ("Signal (last)", fmt2 (Some g));
             ("Histogram (last)", fmt2 (Some h));
             ("Interpretation",
              if fgt h 0 then "Bullish" else "Bearish") ]%string).
Proof.
  intros Hne.
  set (xs := pd.dropna close) in *.
  assert (Hx : xs <> []) by exact Hne.
  destruct (ema_all_valid xs 9 Hx ltac:(lia)) as [o9 [E9 L9]].
  destruct (ema_all_valid xs 15 Hx ltac:(lia)) as [o15 [E15 L15]].
  destruct (macd_all_valid xs default_fast default_slow default_signal Hx)
    as [m [g [h [Em [Lm [Lg [Lh Hl]]]]]]];
    [unfold default_fast; lia | unfold default_slow; lia
     | unfold default_signal; lia |].
  assert (N : forall o : list Q, length o = length xs -> o <> []).
  { intros o Ho E. subst o. destruct xs; [congruence | discriminate Ho]. }
  assert (La : forall o : list Q, o <> [] ->
                 last (all_valid o) None = Some (last o 0)).
  { intros o Ho. pose proof (iloc_last_all_valid o Ho) as H.
    unfold main.iloc_last in H. destruct o; [congruence |].
    cbn [all_valid map] in H. injection H as H. exact H. }
  exists (last o9 0), (last o15 0), (last m 0), (last g 0), (last h 0),
         (all_valid m), (all_valid g), (all_valid h).
  split; [exact Em |].
  split; [apply La; auto |]. split; [apply La; auto |].
  split; [apply La; auto |]. split; [exact Hl |].
  unfold main.ta_section. fold xs.
  assert (Hc : pd.empty close = false).
  { destruct close; [subst xs; simpl in Hne; congruence | reflexivity]. }
  assert (Hxe : pd.empty (all_valid xs) = false).
  { destruct xs; [congruence | reflexivity]. }
  rewrite Hc, Hxe, E9, E15, Em.
  cbn [main.lift main.and_then fst snd].
  rewrite !iloc_last_all_valid by auto.
  cbn [main.and_then].
  rewrite support_resistance_selection, trend_direction_selection.
  rewrite !tail_all_valid. fold (trailing_valid 20 close).
  fold (trailing_valid 10 close).
  rewrite float_gt_difference, <- Hl. reflexivity.
Qed.

End WithFormat.

End Callers.

(** X15: the technical-analysis loop of [build] never fails: for every list
    of histories it yields one section per history whose Close column holds
    at least one valid entry, in order, and skips the others. *)
Theorem X15_ta_sections_never_fail (fmt2 fmt4 : option Q -> string)
    (polyfit : fit_function) (hists : list (string * Series)) :
  exists sections : list (string * list (string * string)),
    main.ta_sections fmt2 fmt4 polyfit hists = main.Done sections
    /\ map fst sections
       = map fst (filter (fun p => existsb pd.is_observation (snd p)) hists).
Proof.
  induction hists as [| [name close] hists [sections [E Hk]]].
  - exists []. split; reflexivity.
  - cbn [main.ta_sections filter snd].
    destruct (existsb pd.is_observation close) eqn:V.
    + assert (Hne : pd.dropna close <> []).
      { intros H. apply dropna_existsb in H. congruence. }
      destruct (ta_section_built fmt2 fmt4 polyfit close Hne)
        as [e9 [e15 [m [g [h [ml [gl [hl [_ [_ [_ [_ [_ Es]]]]]]]]]]]]].
      rewrite Es, E. cbn [main.and_then].
      eexists. split; [reflexivity |]. cbn [map fst]. now rewrite Hk.
    + rewrite (ta_section_skipped fmt2 fmt4 polyfit close)
        by (now apply dropna_existsb).
      rewrite E. cbn [main.and_then].
      exists sections. split; [reflexivity | exact Hk].
Qed.

(** X16: for a Close column with at least one valid entry the section holds
    eight metrics, all formatted from numbers (never from NaN): support and
    resistance are the extrema of the last 20 valid closes and the trend is
    that of the last 10 valid closes, the missing values having been dropped
    before the window is cut; the last histogram value is the last MACD
    value minus the last signal value, and the interpretation is "Bullish"
    exactly when it is positive. *)
Theorem X16_ta_section_metrics (fmt2 fmt4 : option Q -> string)
    (polyfit : fit_function) (close : Series) :
  pd.dropna close <> [] ->
  exists (e9 e15 m g h : Q) (macd_line signal_line histo : Series),
    macd (Some (all_valid (pd.dropna close)))
      default_fast default_slow default_signal
    = Ok (macd_line, signal_line, histo)
    /\ last macd_line None = Some m
    /\ last signal_line None = Some g
    /\ last histo None = Some h
    /\ h = m - g
    /\ main.ta_section fmt2 fmt4 polyfit close
       = main.Done (Some
           [ ("Support (20d min)",
              fmt2 (Some (fst (levels_of (trailing_valid 20 close)))));
             ("Resistance (20d max)",
              fmt2 (Some (snd (levels_of (trailing_valid 20 close)))));
             ("Trendline Direction",
              fst (trend_of polyfit (trailing_valid 10 close) default_tol)
              ++ " (slope "
              ++ fmt4 (Some (snd (trend_of polyfit (trailing_valid 10 close)
                                    default_tol)))
              ++ ")");
             ("EMA(9) vs EMA(15)",
              fmt2 (Some e9) ++ " vs " ++ fmt2 (Some e15));
             ("MACD (last)", fmt2 (Some m));
             ("Signal (last)", fmt2 (Some g));
             ("Histogram (last)", fmt2 (Some h));
             ("Interpretation",
              if fgt h 0 then "Bullish" else "Bearish") ]%string).
Proof.
  apply ta_section_built.
Qed.

(** A column with a gap, formatted by a constant function. *)
Lemma X16_ta_section_metrics_witness :
  pd.dropna [Some 1; None; Some 2] <> []
  /\ exists (e9 e15 m g h : Q) (macd_line signal_line histo : Series),
       macd (Some (all_valid (pd.dropna [Some 1; None; Some 2])))
         default_fast default_slow default_signal
       = Ok (macd_line, signal_line, histo)
       /\ last macd_line None = Some m
       /\ last signal_line None = Some g
       /\ last histo None = Some h
       /\ h = m - g
       /\ main.ta_section (fun _ => "n"%string) (fun _ => "n"%string)
            least_squares_line [Some 1; None; Some 2]
          = main.Done (Some
              [ ("Support (20d min)", "n");
                ("Resistance (20d max)", "n");
                ("Trendline Direction",
                 fst (trend_of least_squares_line
                        (trailing_valid 10 [Some 1; None; Some 2])
                        default_tol)
                 ++ " (slope " ++ "n" ++ ")");
                ("EMA(9) vs EMA(15)", "n" ++ " vs " ++ "n");
                ("MACD (last)", "n");
                ("Signal (last)", "n");
                ("Histogram (last)", "n");
                ("Interpretation",
                 if fgt h 0 then "Bullish" else "Bearish") ]%string).
Proof.
  assert (H : pd.dropna [Some 1; None; Some 2] <> []) by discriminate.
  split; [exact H |].
  apply (X16_ta_section_metrics (fun _ => "n"%string) (fun _ => "n"%string)
           least_squares_line [Some 1; None; Some 2] H).
Defined.

(** X17: for two numbers with b <> 0, _pct(a, b) is a number p with
    b + b * p / 100 = a (applying the percentage to the base gives the value
    back), and for a positive base p is positive exactly when a > b. *)
Theorem X17_pct_round_trip (a b : Q) :
  ~ b == 0 ->
  exists p : Q,
    fetchers._pct (PyFloat (Some a)) (PyFloat (Some b)) = PyFloat (Some p)
    /\ b + b * p / 100 == a
    /\ (0 < b -> (0 < p <-> b < a)).
Proof.
  intros Hb. unfold fetchers._pct, fetchers.is_zero.
  destruct (Qeq_bool b 0) eqn:E; [apply Qeq_bool_iff in E; contradiction |].
  cbn [pd.fsub fdiv fmul].
  eexists. split; [reflexivity |]. split.
  - field. exact Hb.
  - intros Hpos.
    assert (Hp : (a - b) / b * 100 == (100 / b) * (a - b)) by (field; exact Hb).
    assert (Hk : 0 < 100 / b) by (apply Qlt_shift_div_l; lra).
    rewrite Hp. split; intros H.
    + assert (0 < a - b); [| lra].
      apply (Qmult_lt_l _ _ (100 / b) Hk). lra.
    + assert (H0 : 0 < a - b) by lra.
      pose proof (Qmult_lt_0_compat _ _ Hk H0). lra.
Qed.

(** From 80 to 100: +25 percent. *)
Lemma X17_pct_round_trip_witness :
  ~ 80 == 0
  /\ exists p : Q,
       fetchers._pct (PyFloat (Some 100)) (PyFloat (Some 80))
       = PyFloat (Some p)
       /\ 80 + 80 * p / 100 == 100
       /\ (0 < 80 -> (0 < p <-> 80 < 100)).
Proof.
  assert (H : ~ 80 == 0) by discriminate.
  split; [exact H |].
  apply (X17_pct_round_trip 100 80 H).
Defined.

(** X18: _pct returns None exactly when an operand is None or the base is
    zero; a NaN operand gives NaN, not None. *)
Theorem X18_pct_none_iff (a b : pyvalue) :
  fetchers._pct a b = PyNone
  <-> (a = PyNone \/ b = PyNone \/ exists y : Q, b = PyFloat (Some y) /\ y == 0).
Proof.
  unfold fetchers._pct, fetchers.is_zero.
  destruct b as [| [y |]].
  - split; auto.
  - destruct (Qeq_bool y 0) eqn:E.
    + apply Qeq_bool_iff in E. split; [| reflexivity].
      intros _. right. right. exists y. auto.
    + apply Qeq_bool_neq in E. destruct a as [| fa].
      * split; auto.
      * split; [discriminate |].
        intros [H | [H | [z [H Hz]]]]; try discriminate.
        injection H as ->. contradiction.
  - destruct a as [| fa].
    + split; auto.
    + split; [discriminate |].
      intros [H | [H | [z [H _]]]]; discriminate.
Qed.

(** X19: the table of dict_to_rows always has its header row followed by one
    row per item, in the order of the items and starting with the item's
    key; every row has five cells. *)
Theorem X19_dict_to_rows_shape (fmt2 : option Q -> string)
    (dct : list (string * list (string * pyvalue))) (first_col : string) :
  length (main.dict_to_rows fmt2 dct first_col) = S (length dct)
  /\ Forall (fun row => length row = 5%nat)
       (main.dict_to_rows fmt2 dct first_col)
  /\ map (hd ""%string) (main.dict_to_rows fmt2 dct first_col)
     = first_col :: map fst dct
  /\ hd [] (main.dict_to_rows fmt2 dct first_col)
     = [first_col; "Open"; "Close"; "Change %"; "LTP"]%string.
Proof.
  unfold main.dict_to_rows. cbn [length map hd].
  rewrite length_map, map_map. cbn [hd].
  split; [reflexivity |]. split; [| split; reflexivity].
  constructor; [reflexivity |].
  apply Forall_forall. intros row Hrow.
  apply in_map_iff in Hrow. destruct Hrow as [kv [<- _]]. reflexivity.
Qed.

(** X20: a snapshot whose close equals the previous close is shown with a
    dash in the "Change %" column, not with 0.00%: its change is 0.0 (or
    None for a zero price), which the table treats as absent; so is a price
    of 0.0 itself. *)
Theorem X20_unchanged_price_shown_as_dash (fmt2 : option Q -> string)
    (open_price : option Q) (close prev : Q) :
  prev == close ->
  main.cell fmt2
    (fetchers.snapshot_entry open_price (Some close) (Some prev))
    "Change%" "%" = "-"%string
  /\ (close == 0 ->
        main.cell fmt2
          (fetchers.snapshot_entry open_price (Some close) (Some prev))
          "Close" "" = "-"%string).
Proof.
  intros Hp. unfold main.cell, fetchers.snapshot_entry.
  cbn [main.get String.eqb Ascii.eqb Bool.eqb].
  split.
  - unfold fetchers._pct, fetchers.is_zero.
    destruct (Qeq_bool prev 0) eqn:E; [reflexivity |].
    apply Qeq_bool_neq in E.
    cbn [pd.fsub fdiv fmul truthy].
    assert (Z0 : (close - prev) / prev * 100 == 0)
      by (rewrite Hp; field; rewrite <- Hp; exact E).
    apply Qeq_eq_bool in Z0. rewrite Z0. reflexivity.
  - intros Hc. cbn [truthy]. apply Qeq_eq_bool in Hc. rewrite Hc. reflexivity.
Qed.

(** A single downloaded row: the previous close is the close, 250. *)
Lemma X20_unchanged_price_shown_as_dash_witness :
  250 == 250
  /\ main.cell (fun _ => "n"%string)
       (fetchers.snapshot_entry (Some 249) (Some 250) (Some 250))
       "Change%" "%" = "-"%string.
Proof.
  assert (H : 250 == 250) by reflexivity.
  split; [exact H |].
  apply (proj1 (X20_unchanged_price_shown_as_dash (fun _ => "n"%string)
                  (Some 249) 250 250 H)).
Defined.

(** ** Monotone data *)

Section Monotone.

(** On non-decreasing numbers the running mean climbs without overtaking
    them. *)
Lemma ewm_loop_lag (alpha : Q) (xs : list Q) :
  0 < alpha -> alpha <= 1 ->
  forall (w : Q) (n : nat),
    Sorted Qle xs -> HdRel Qle w xs ->
    exists o : list Q,
      pd.ewm_loop alpha 1 (pd.mk_ewm_state (Some w) 1 (S n)) (all_valid xs)
      = all_valid o
      /\ Forall2 Qle o xs
      /\ Sorted Qle (w :: o).
Proof.
  intros Ha Ha1. induction xs as [| x xs IH]; intros w n Hs Hh.
  - exists []. split; [reflexivity |]. split; constructor; constructor.
  - destruct (ewm_step_valid alpha w x (S n)) as [w' [Hstep Hw']].
    apply HdRel_inv in Hh.
    assert (Hlo : w <= w') by (rewrite Hw'; nra).
    assert (Hhi : w' <= x) by (rewrite Hw'; nra).
    apply Sorted_inv in Hs. destruct Hs as [Hs Hx].
    destruct (IH w' (n + 1)%nat Hs) as [o [Ho [Hle Hso]]].
    { destruct Hx as [| x' xs' Hx]; constructor.
      eapply Qle_trans; eassumption. }
    exists (w' :: o). cbn [all_valid map pd.ewm_loop]. rewrite Hstep.
    cbn [plus]. fold (all_valid xs). rewrite Ho.
    split; [reflexivity |]. split; constructor; auto.
Qed.

(** The pairing of positions from [m] on with the excess of the data over a
    lower bound [v], seen from an origin [lo <= m], is non-negative. *)
Lemma excess_nonneg (v : Q) (lo : nat) (y : list Q) :
  Forall (fun u => v <= u) y ->
  forall m : nat, (lo <= m)%nat ->
    0 <= np.sum (np.mul (positions m (length y)) y)
         - inject_Z (Z.of_nat lo) * np.sum y
         - v * np.sum (positions m (length y))
         + v * inject_Z (Z.of_nat (length y)) * inject_Z (Z.of_nat lo).
Proof.
  induction 1 as [| u y Hu _ IH]; intros m Hm.
  - cbn [length]. change (positions m 0) with (@nil Q).
    cbn [np.mul combine map np.sum fold_right].
    change (inject_Z (Z.of_nat 0)) with 0.
    apply Qle_lteq. right. ring.
  - specialize (IH (S m) (Nat.le_trans _ _ _ Hm (Nat.le_succ_diag_r m))).
    cbn [length]. rewrite positions_cons, !mul_cons, !sum_cons, inject_S.
    pose proof (inject_nat_ge m lo Hm) as Hlm.
    set (M := inject_Z (Z.of_nat m)) in *.
    set (L := inject_Z (Z.of_nat lo)) in *.
    assert (P : 0 <= (M - L) * (u - v)) by (apply Qmult_le_0_compat; lra).
    lra.
Qed.

(** The numerator of the slope is non-negative on non-decreasing data. *)
Lemma covariance_nonneg (y : list Q) :
  StronglySorted Qle y ->
  forall lo : nat,
    0 <= inject_Z (Z.of_nat (length y))
         * np.sum (np.mul (positions lo (length y)) y)
         - np.sum (positions lo (length y)) * np.sum y.
Proof.
  induction 1 as [| v y _ IH Hv]; intros lo.
  - cbn [length]. change (positions lo 0) with (@nil Q).
    cbn [np.mul combine map np.sum fold_right].
    change (inject_Z (Z.of_nat 0)) with 0.
    apply Qle_lteq. right. ring.
  - specialize (IH (S lo)).
    pose proof (excess_nonneg v lo y Hv (S lo) (Nat.le_succ_diag_r lo)) as He.
    cbn [length]. rewrite positions_cons, !mul_cons, !sum_cons, inject_S.
    pose proof (sum_positions (length y) (S lo)) as Hp.
    rewrite inject_S in Hp.
    set (K := inject_Z (Z.of_nat (length y))) in *.
    set (L := inject_Z (Z.of_nat lo)) in *.
    set (sx := np.sum (positions (S lo) (length y))) in *.
    set (sy := np.sum y) in *.
    set (sxy := np.sum (np.mul (positions (S lo) (length y)) y)) in *.
    nra.
Qed.

Lemma slope_nonneg (y : list Q) :
  (2 <= length y)%nat -> StronglySorted Qle y ->
  0 <= fst (least_squares_line (np.arange (length y)) y).
Proof.
  intros Hk Hs.
  pose proof (determinant_positive (length y) Hk) as Hd.
  pose proof (covariance_nonneg y Hs 0) as Hc.
  change (positions 0 (length y)) with (np.arange (length y)) in Hc.
  unfold least_squares_line. cbn [fst].
  replace (length (np.arange (length y))) with (length y)
    by (unfold np.arange; now rewrite length_map, length_seq).
  apply Qle_shift_div_l; [exact Hd | lra].
Qed.

End Monotone.

(** X21: on a non-decreasing series without missing entries, with span >= 1,
    the EMA is non-decreasing and never above the price: it lags a rising
    market from below. *)
Theorem X21_ema_lags_rising_series (xs : list Q) (span : Z) :
  (1 <= span)%Z -> Sorted Qle xs ->
  exists o : list Q,
    ema (Some (all_valid xs)) span = Ok (all_valid o)
    /\ Forall2 Qle o xs
    /\ Sorted Qle o.
Proof.
  intros Hs Hx. destruct (alpha_range span Hs) as [Ha Ha1].
  destruct xs as [| x xs].
  - exists []. split; [reflexivity |]. split; constructor.
  - apply Sorted_inv in Hx. destruct Hx as [Hx Hh].
    destruct (ewm_loop_lag _ xs Ha Ha1 x 0 Hx Hh) as [o [Ho [Hle Hso]]].
    exists (x :: o).
    unfold ema. cbn [all_valid map absent_or_empty pd.empty values].
    fold (all_valid xs).
    rewrite ewm_mean_ok by exact Hs. unfold pd.ewm. cbn [pd.is_observation].
    rewrite Ho. split; [reflexivity |].
    split; [constructor; [apply Qle_refl | exact Hle] | exact Hso].
Qed.

(** The series [4, 5, 8] with span 3. *)
Lemma X21_ema_lags_rising_series_witness :
  (1 <= 3)%Z /\ Sorted Qle [4; 5; 8]
  /\ exists o : list Q,
       ema (Some (all_valid [4; 5; 8])) 3 = Ok (all_valid o)
       /\ Forall2 Qle o [4; 5; 8]
       /\ Sorted Qle o.
Proof.
  assert (H : Sorted Qle [4; 5; 8])
    by (repeat constructor; discriminate).
  split; [lia |]. split; [exact H |].
  apply (X21_ema_lags_rising_series [4; 5; 8] 3); [lia | exact H].
Defined.

(** X22: when the selected points are non-decreasing and the rounding
    error of the fit does not exceed the tolerance, the slope of
    trend_direction is >= -tol and the label is never "Down". *)
Theorem X22_rising_window_never_down (polyfit : fit_function) (s : Series)
    (window : Z) (tol : Q) :
  StronglySorted Qle (pd.dropna (pd.tail window s)) ->
  fit_error polyfit (pd.dropna (pd.tail window s)) <= tol ->
  - tol <= snd (trend_direction polyfit (Some s) window tol)
  /\ fst (trend_direction polyfit (Some s) window tol) <> "Down"%string.
Proof.
  intros Hs He. rewrite trend_direction_selection.
  set (y := pd.dropna (pd.tail window s)) in *.
  pose proof (fit_error_nonneg polyfit y) as H0.
  destruct (fit_error_bounds polyfit y tol He) as [Hlo _].
  unfold trend_of.
  destruct (Nat.ltb_spec (length y) 2) as [L | G]; cbn [fst snd].
  - split; [lra | discriminate].
  - pose proof (slope_nonneg y G Hs) as Hx.
    split; [lra |]. unfold classify.
    destruct (fgt _ tol); [discriminate |].
    destruct (flt _ (- tol)) eqn:E; [| discriminate].
    apply flt_true in E. lra.
Qed.

(** A rising series with a gap and a flat stretch, window 4, for a fit
    without rounding. *)
Lemma X22_rising_window_never_down_witness :
  StronglySorted Qle
    (pd.dropna (pd.tail 4 [Some 1; Some 3; None; Some 3; Some 4]))
  /\ fit_error least_squares_line
       (pd.dropna (pd.tail 4 [Some 1; Some 3; None; Some 3; Some 4]))
     <= default_tol
  /\ fst (trend_direction least_squares_line
            (Some [Some 1; Some 3; None; Some 3; Some 4]) 4 default_tol)
     <> "Down"%string.
Proof.
  assert (H : StronglySorted Qle
                (pd.dropna (pd.tail 4 [Some 1; Some 3; None; Some 3; Some 4]))).
  { change (StronglySorted Qle [3; 3; 4]).
    repeat constructor; discriminate. }
  assert (He : fit_error least_squares_line
                 (pd.dropna (pd.tail 4 [Some 1; Some 3; None; Some 3; Some 4]))
               <= default_tol) by (vm_compute; discriminate).
  split; [exact H |]. split; [exact He |].
  apply (proj2 (X22_rising_window_never_down least_squares_line
                  [Some 1; Some 3; None; Some 3; Some 4] 4 default_tol H He)).
Defined.
